(** * The enwik8 training script of the blocksparse transformer

    A shallow embedding of [examples/transformer/enwik8.py] and the
    properties of its attention structure, data pipeline, loss scaling
    and graph assembly. *)

From Stdlib Require Import QArith Qpower Qminmax PrimFloat FloatOps SpecFloat.
From Stdlib Require Import Strings.Byte DecimalString DecimalNat.
From stdpp Require Import base numbers list strings.

Open Scope nat_scope.

(** ** Numpy arrays used by the script *)

Module Np.

(** A two-dimensional array, stored row by row. *)
Abbreviation array2 A := (list (list A)) (only parsing).

(** [np.ones([rows, cols], dtype=np.bool)] *)
Definition ones (rows cols : nat) : array2 bool :=
  replicate rows (replicate cols true).

(** [a[q, k]]; [None] stands for the [IndexError] of an index that is
    out of range. *)
Definition get {A} (a : array2 A) (q k : nat) : option A :=
  a !! q ≫= λ row, row !! k.

(** [a[q, k] = v].  Every store of the script happens inside a loop over
    [np.ndindex] of the array's own shape, so the index is in range; out
    of range the list is left as it is. *)
Definition set {A} (a : array2 A) (q k : nat) (v : A) : array2 A :=
  alter (λ row, <[k := v]> row) q a.

(** [np.ndindex(rows, cols)]: all index pairs, the last index running
    fastest. *)
Definition ndindex (rows cols : nat) : list (nat * nat) :=
  q ← seq 0 rows; (λ k, (q, k)) <$> seq 0 cols.

End Np.

(** ** Attention structure (lines 57-86) *)

Module Attention.

(** [causal_subblock_mask(blk_shape, head_idx, query_idx, key_idx, blk_idx)] *)
Definition causal_subblock_mask (blk_shape : nat * nat)
    (head_idx query_idx key_idx blk_idx : nat) : Np.array2 bool :=
  let mask := Np.ones blk_shape.1 blk_shape.2 in
  if decide (query_idx = key_idx) then
    foldl (λ mask '(q, k), if decide (q < k) (* k > q *) then Np.set mask q k false else mask)
          mask (Np.ndindex blk_shape.1 blk_shape.2)
  else mask.

(** The arguments handed to the [BlocksparseTransformer] constructor. *)
Record BlocksparseTransformer := {
  layout : Np.array2 bool;
  block_size : nat;
  mask_callback : nat * nat → nat → nat → nat → nat → Np.array2 bool;
  heads : nat
}.

(** [get_blocksparse_attention_ops(n_timesteps, n_heads)] *)
Definition get_blocksparse_attention_ops (n_timesteps n_heads : nat)
    : BlocksparseTransformer :=
  let blocksize := 64 in
  let n_time_blocks := n_timesteps `div` blocksize in
  let layout := Np.ones n_time_blocks n_time_blocks in
  let layout :=
    foldl (λ layout '(q_idx, k_idx),
             if decide (q_idx < k_idx) (* k_idx > q_idx *) then Np.set layout q_idx k_idx false
             else layout)
          layout (Np.ndindex n_time_blocks n_time_blocks) in
  {| layout := layout; block_size := blocksize;
     mask_callback := causal_subblock_mask; heads := n_heads |}.

(** Modelled from the spec: the [BlocksparseTransformer] class belongs to
    the imported library and is not part of the script.  How it combines
    the two structures is taken from the script's comments on lines 57-60
    and 73-75: only blocks whose layout entry is 1 are computed, and within
    a computed block the softmax output is forced to zero where the mask
    returned by the callback is zero.  The callback receives the square
    block shape and the block indices of the query and of the key;
    [blk_idx] numbers the computed blocks and is not looked at by the
    script's callback. *)
Definition attends (bst : BlocksparseTransformer) (head_idx i j : nat) : bool :=
  let b := block_size bst in
  match Np.get (layout bst) (i `div` b) (j `div` b) with
  | Some true =>
      let mask := mask_callback bst (b, b) head_idx (i `div` b) (j `div` b) 0 in
      default false (Np.get mask (i `mod` b) (j `mod` b))
  | _ => false
  end.

(** The body of the two loops that clear the entries of the future. *)
Definition clear_future (m : Np.array2 bool) (qk : nat * nat) : Np.array2 bool :=
  let '(q, k) := qk in if decide (q < k) then Np.set m q k false else m.

End Attention.

(** ** Exceptions the modelled code can raise *)

Inductive exn :=
| ValueError_randint       (* np.random.randint(0, n_timesteps) with n_timesteps <= 0 *)
| ZeroDivisionError        (* idxs.size // sequences_per_batch *)
| IndexError               (* idxs[minibatch_index, mpi_rank] *)
| ValueError_reshape       (* idxs.reshape([-1, mpi_size, n_batch]) that does not fit *)
| ValueError_broadcast     (* x[i, :] = ... with a value of another length *)
| UnicodeDecodeError.      (* open(path).read(...) on an ill-formed text *)

(** The outcome of a call that can raise. *)
Inductive result (A : Type) := Ok (a : A) | Raise (e : exn).
Arguments Ok {A} _.
Arguments Raise {A} _.

#[global] Instance result_ret : MRet result := λ A a, Ok a.
#[global] Instance result_bind : MBind result := λ A B f m,
  match m with Ok a => f a | Raise e => Raise e end.
#[global] Instance result_fmap : FMap result := λ A B f m,
  match m with Ok a => Ok (f a) | Raise e => Raise e end.

(** What a loop that yields has produced when it stops: the values yielded
    so far and the exception that ended it, if one did. *)
Record trace (A : Type) := Trace { yielded : list A; raised : option exn }.
Arguments Trace {A} _ _.
Arguments yielded {A} _.
Arguments raised {A} _.

(** [for i in range: yield body(i)], stopped by the first exception. *)
Fixpoint for_yield {A} (body : nat → result A) (range : list nat) : trace A :=
  match range with
  | [] => Trace [] None
  | i :: range =>
      match body i with
      | Raise e => Trace [] (Some e)
      | Ok a => let t := for_yield body range in Trace (a :: yielded t) (raised t)
      end
  end.

(** ** Data loading (lines 224-247) *)

Module Data.

(** *** Reading the file *)

Definition byte_in (lo hi : nat) (b : byte) : bool :=
  (lo <=? Byte.to_nat b) && (Byte.to_nat b <=? hi).

Definition CR : byte := Byte.x0d.
Definition LF : byte := Byte.x0a.

(** [open(path).read(n)]: the file is opened in text mode, so [read(n)]
    returns [n] characters (fewer at the end of the file), decoded with
    the platform's codec, taken here to be UTF-8, and with universal
    newlines: ["\r\n"] and a lone ["\r"] are each read as the single
    character ["\n"].  [np.fromstring(text, dtype=np.uint8)] then takes
    the UTF-8 bytes of the text, so the function below returns those
    bytes directly.  [bs] is the contents of the file.  An ill-formed
    sequence raises when the decoder reaches it (the library decodes
    ahead in chunks and may reach it earlier than this model does). *)
Fixpoint read_text (n : nat) (bs : list byte) : result (list byte) :=
  match n, bs with
  | 0, _ => Ok []
  | _, [] => Ok []
  | S n', b0 :: r0 =>
    if byte_in 0 127 b0 then
      if Byte.eqb b0 CR then
        match r0 with
        | b1 :: r1 =>
            if Byte.eqb b1 LF then cons LF <$> read_text n' r1
            else cons LF <$> read_text n' r0
        | [] => Ok [LF]
        end
      else cons b0 <$> read_text n' r0
    else
      match r0 with
      | [] => Raise UnicodeDecodeError
      | b1 :: r1 =>
        if byte_in 194 223 b0 then
          if byte_in 128 191 b1 then (λ s, b0 :: b1 :: s) <$> read_text n' r1
          else Raise UnicodeDecodeError
        else
          match r1 with
          | [] => Raise UnicodeDecodeError
          | b2 :: r2 =>
            if byte_in 224 239 b0 then
              if (if Byte.eqb b0 Byte.xe0 then byte_in 160 191 b1
                  else if Byte.eqb b0 Byte.xed then byte_in 128 159 b1
                  else byte_in 128 191 b1) && byte_in 128 191 b2
              then (λ s, b0 :: b1 :: b2 :: s) <$> read_text n' r2
              else Raise UnicodeDecodeError
            else
              match r2 with
              | [] => Raise UnicodeDecodeError
              | b3 :: r3 =>
                if byte_in 240 244 b0
                   && (if Byte.eqb b0 Byte.xf0 then byte_in 144 191 b1
                       else if Byte.eqb b0 Byte.xf4 then byte_in 128 143 b1
                       else byte_in 128 191 b1)
                   && byte_in 128 191 b2 && byte_in 128 191 b3
                then (λ s, b0 :: b1 :: b2 :: b3 :: s) <$> read_text n' r3
                else Raise UnicodeDecodeError
              end
          end
      end
  end.

(** [X[a:b]] for indices that are not negative *)
Definition slice {A} (X : list A) (a b : nat) : list A := take (b - a) (drop a X).

(** [np.split(X, [i1, i2])]: the three pieces [X[:i1]], [X[i1:i2]] and
    [X[i2:]]. *)
Definition split3 {A} (X : list A) (i1 i2 : nat) : list A * list A * list A :=
  (slice X 0 i1, slice X i1 i2, slice X i2 (length X)).

(** [enwik8(path, n_train, n_valid, n_test)], on the contents of the file
    at [path]. *)
Definition enwik8 (contents : list byte) (n_train n_valid n_test : nat)
    : result (list byte * list byte * list byte) :=
  X ← read_text (n_train + n_valid + n_test) contents;
  Ok (split3 X n_train (n_train + n_valid)).

(** The three segments as the specification words them: consecutive
    pieces of the file's bytes, of [n_train], [n_valid] and [n_test] bytes. *)
Definition byte_segments (contents : list byte) (n_train n_valid n_test : nat)
    : list byte * list byte * list byte :=
  (slice contents 0 n_train,
   slice contents n_train (n_train + n_valid),
   slice contents (n_train + n_valid) (n_train + n_valid + n_test)).

(** A byte that every ASCII-compatible codec reads as itself and that the
    newline translation leaves alone. *)
Definition plain (b : byte) : bool := byte_in 0 127 b && negb (Byte.eqb b CR).

(** *** Minibatches *)

(** The two draws [iter_data] takes from [np.random]: the value returned by
    [np.random.randint(0, n_timesteps)] and the shuffle that
    [np.random.permutation] applies to its argument. *)
Record draws := Draws {
  randint_draw : nat;
  permutation_draw : list nat → list nat
}.

(** What numpy guarantees of the draws: the offset, when one is drawn,
    lies in [[0, n_timesteps)], and the shuffle permutes its argument. *)
Definition numpy_draws (n_timesteps : nat) (rng : draws) : Prop :=
  (0 < n_timesteps → randint_draw rng < n_timesteps)
  ∧ ∀ l, permutation_draw rng l ≡ₚ l.

(** [np.arange(start, stop, step)] for a positive step; a [stop] that is
    not above [start] gives the empty array, which is also what the
    truncated subtraction of [nat] gives for [X.size - (n_timesteps + 1)]
    when the array is short. *)
Definition arange (start stop step : nat) : list nat :=
  (λ i, start + i * step) <$> seq 0 ((stop - start + (step - 1)) `div` step).

(** [a.reshape([-1, d1, d2])], row-major. *)
Definition reshape3 {A} (a : list A) (d1 d2 : nat) : result (list (list (list A))) :=
  if decide (d1 * d2 = 0) then Raise ValueError_reshape
  else if decide (length a `mod` (d1 * d2) = 0) then
    Ok ((λ m, (λ r, slice a ((m * d1 + r) * d2) ((m * d1 + r) * d2 + d2)) <$> seq 0 d1)
          <$> seq 0 (length a `div` (d1 * d2)))
  else Raise ValueError_reshape.

(** [np.zeros((rows, cols), dtype=np.uint8)] *)
Definition zeros (rows cols : nat) : list (list byte) :=
  replicate rows (replicate cols Byte.x00).

(** The value stored by [x[i, :] = v] in a row of width [w]: [v] itself
    when the lengths agree, its one element repeated when it has one
    element, and a [ValueError] otherwise. *)
Definition broadcast_row (w : nat) (v : list byte) : result (list byte) :=
  if decide (length v = w) then Ok v
  else match v with
       | [b] => Ok (replicate w b)
       | _ => Raise ValueError_broadcast
       end.

(** [for i, start_idx in enumerate(starting_indices):
       x[i, :] = X[start_idx:start_idx + n_timesteps + 1]] *)
Fixpoint fill_rows (X : list byte) (n_timesteps : nat) (x : list (list byte))
    (rows : list (nat * nat)) : result (list (list byte)) :=
  match rows with
  | [] => Ok x
  | (i, start_idx) :: rows =>
      row ← broadcast_row (n_timesteps + 1) (slice X start_idx (start_idx + n_timesteps + 1));
      fill_rows X n_timesteps (<[i := row]> x) rows
  end.

(** [enumerate(l)] *)
Definition enumerate {A} (l : list A) : list (nat * A) := imap pair l.

Abbreviation batch := (list (list byte)) (only parsing).

(** [x[:, :-1]] and [x[:, 1:]] *)
Definition except_last_column (x : batch) : batch :=
  (λ row, take (length row - 1) row) <$> x.
Definition except_first_column (x : batch) : batch :=
  drop 1 <$> x.

(** [idxs[minibatch_index, mpi_rank]] *)
Definition starting_indices_of (idxs : list (list (list nat)))
    (minibatch_index mpi_rank : nat) : option (list nat) :=
  idxs !! minibatch_index ≫= λ per_rank, per_rank !! mpi_rank.

(** The array [idxs] after the truncation of line 238, before it is
    reshaped. *)
Definition epoch_indices (X : list byte) (n_timesteps n_batch mpi_size : nat)
    (rng : draws) : list nat :=
  let offset := randint_draw rng in
  let idxs := permutation_draw rng
                (arange offset (length X - (n_timesteps + 1)) n_timesteps) in
  let sequences_per_batch := mpi_size * n_batch in
  let length_ := (length idxs `div` sequences_per_batch) * sequences_per_batch in
  take length_ idxs.

(** [iter_data(X, n_timesteps, n_batch, mpi_rank, mpi_size)], run to its
    end, on an array of bytes as [enwik8] returns it.  The messages of
    [print_rank0] are left out. *)
Definition iter_data (X : list byte) (n_timesteps n_batch mpi_rank mpi_size : nat)
    (rng : draws) : trace (batch * batch) :=
  if decide (n_timesteps = 0) then Trace [] (Some ValueError_randint) else
  let sequences_per_batch := mpi_size * n_batch in
  if decide (sequences_per_batch = 0) then Trace [] (Some ZeroDivisionError) else
  let idxs := epoch_indices X n_timesteps n_batch mpi_size rng in
  match reshape3 idxs mpi_size n_batch with
  | Raise e => Trace [] (Some e)
  | Ok idxs =>
      for_yield (λ minibatch_index,
        match starting_indices_of idxs minibatch_index mpi_rank with
        | None => Raise IndexError
        | Some starting_indices =>
            x ← fill_rows X n_timesteps (zeros n_batch (n_timesteps + 1))
                  (enumerate starting_indices);
            Ok (except_last_column x, except_first_column x)
        end) (seq 0 (length idxs))
  end.

(** [x.shape == (rows, cols)] *)
Definition has_shape (x : batch) (rows cols : nat) : Prop :=
  length x = rows ∧ Forall (λ row, length row = cols) x.

(** The windows of [X] that start at the given indices: what the buffer
    [x] holds when every slice of line 246 has its full length. *)
Definition windows (X : list byte) (n_timesteps : nat) (starting_indices : list nat)
    : batch :=
  (λ start_idx, slice X start_idx (start_idx + n_timesteps + 1)) <$> starting_indices.

(** A small array and a draw, to run [iter_data] on. *)
Definition X12 : list byte :=
  [x00; x01; x02; x03; x04; x05; x06; x07; x08; x09; x0a; x0b].
Definition reversing : draws := Draws 1 (@rev nat).

(** The pair yielded for minibatch [m] when nothing raises: the windows
    at row [mpi_rank] of the reshaped indices, without their last and
    without their first column. *)
Definition minibatch (X : list byte) (n_timesteps n_batch mpi_rank mpi_size : nat)
    (idxs : list nat) (m : nat) : batch * batch :=
  let at_ := (m * mpi_size + mpi_rank) * n_batch in
  let x := windows X n_timesteps (slice idxs at_ (at_ + n_batch)) in
  (except_last_column x, except_first_column x).

End Data.

(** ** Hyper-parameters: the fields of [hps] the graph is built from *)

Module Hps.
Record t := Make {
  n_batch : nat;
  n_state : nat;
  n_head : nat;
  n_layer : nat;
  n_timesteps : nat;
  n_vocab : nat;
  lr : Q;
  clip_norm : Q;
  warmup_iters : nat;
  log_stats : Z
}.

(** The defaults of the argument parser (lines 260-275). *)
Definition default : t :=
  {| n_batch := 32; n_state := 512; n_head := 4; n_layer := 6;
     n_timesteps := 320; n_vocab := 256; lr := 5 # 10000; clip_norm := 1;
     warmup_iters := 1000; log_stats := 0 |}.

(** A small model, to build the graph of. *)
Definition tiny : t :=
  {| n_batch := 2; n_state := 8; n_head := 2; n_layer := 2;
     n_timesteps := 64; n_vocab := 5; lr := 5 # 10000; clip_norm := 1;
     warmup_iters := 1000; log_stats := 0 |}.
End Hps.

(** ** Loss scaling (lines 292-299 and 320-331) *)

Module Scaling.

(** The arithmetic the loop needs of its numbers.  Python's floats are
    the binary64 floats of [PrimFloat]; the rationals give the same loop in
    exact arithmetic. *)
Class Number (F : Type) := {
  mul : F → F → F;
  is_zero : F → bool;      (* [x == 0.0] *)
  half : F;                (* [0.5] *)
  two : F                  (* [2.0] *)
}.

#[export] Instance float_number : Number float :=
  {| mul := PrimFloat.mul; is_zero := λ x, PrimFloat.eqb x 0%float;
     half := 0.5%float; two := 2%float |}.


(** [hps.cost_scale] and [hps.cost_count] *)
Record hparams (F : Type) := Hparams { hps_cost_scale : F; hps_cost_count : Z }.
Arguments Hparams {F} _ _.
Arguments hps_cost_scale {F} _.
Arguments hps_cost_count {F} _.

(** The two variables of the training loop. *)
Record state (F : Type) := State { cur_cost_scale : F; cost_count : Z }.
Arguments State {F} _ _.
Arguments cur_cost_scale {F} _.
Arguments cost_count {F} _.

Section loop.
Context {F : Type} `{Number F}.

(** Lines 298-299. *)
Definition init (hps : hparams F) : state F := State (hps_cost_scale hps) 0.

(** Lines 322-331, for the [norm_scale] that [sess.run] returned. *)
Definition step (hps : hparams F) (norm_scale : F) (st : state F) : state F :=
  if is_zero norm_scale then
    State (mul (cur_cost_scale st) half) 0
  else if (hps_cost_count hps <=? cost_count st)%Z then
    State (mul (cur_cost_scale st) two) 0
  else
    State (cur_cost_scale st) (cost_count st + 1).

(** The training iterations of all epochs, one [norm_scale] each; the
    validation and test passes do not touch the two variables. *)
Definition train (hps : hparams F) (norm_scales : list F) : state F :=
  foldl (λ st norm_scale, step hps norm_scale st) (init hps) norm_scales.

End loop.



End Scaling.

(** ** The graph the script assembles (lines 25-55 and 89-221)

    The operators of TensorFlow and of the imported library are kept as
    symbolic nodes: the script only wires them together. *)

Module Tf.

Inductive dtype := float16 | float32 | int32.

Inductive initializer :=
| random_normal_initializer (stddev : Q)
| constant_initializer (value : Q).

Local Unset Elimination Schemes.

Inductive tensor :=
| Var (path : list string) (shape : list nat) (init : initializer) (trainable : bool)
| Placeholder (name : string) (shape : list nat)
| Constant (value : Q)
| FloatCast (x : tensor) (dt : dtype) (dx_dtype : option dtype)
| Cast (x : tensor) (dt : dtype)
| EmbeddingLookup (emb ids : tensor)
| Add (a b : tensor)
| Mul (a b : tensor)
| Div (a b : tensor)
| Minimum (a b : tensor)
| Rsqrt (x : tensor)
| MatMul (a b : tensor) (transpose_b : bool)
| Reshape (x : tensor) (target : list Z)
| BiasRelu (x b : tensor) (relu atomics : bool)
| LayerNorm (x gain bias : tensor) (epsilon : Q) (relu : bool)
| QueryKeyOp (bst : Attention.BlocksparseTransformer) (q k : tensor)
| MaskedSoftmax (bst : Attention.BlocksparseTransformer) (energies scale : tensor)
| WeightValueOp (bst : Attention.BlocksparseTransformer) (w v : tensor)
| SoftmaxCrossEntropy (logits labels : tensor)
| ReduceMean (x : tensor)
| ScaleTensor (x scale : tensor)
| Gradient (y x : tensor)
| Allreduce (x : tensor)
| GroupAllreduce (grad : tensor) (search_strings : list string)
| GlobalNorm (grads : list tensor) (grad_scale : tensor) (clip_norm : Q)
| NormScale (grads : list tensor) (grad_scale : tensor) (clip_norm : Q)
| LogStats (x step : tensor) (logfile name : string).

Inductive optimizer :=
| AdafactorOptimizer (learning_rate norm_scale grad_scale : tensor)
| AdamOptimizer (learning_rate norm_scale grad_scale : tensor).

Inductive op :=
| ApplyGradients (opt : optimizer) (grads_and_vars : list (tensor * tensor))
| Group (ops : list op)
| AssignAdd (var : tensor) (delta : Q) (control_dependencies : list op).

Local Set Elimination Schemes.

(** [str(n)] and ['%d' % n] *)
Definition str (n : nat) : string := NilEmpty.string_of_uint (Nat.to_uint n).

(** The scopes and the name of a variable. *)
Definition var_path (t : tensor) : list string :=
  match t with
  | Var path _ _ _ => path
  | _ => []
  end.

(** [param.op.name]: the scopes and the name of a variable, joined by [/]. *)
Definition op_name (t : tensor) : string :=
  String.concat "/" (var_path t).

(** [needle in hay] on strings *)
Fixpoint contains (needle hay : string) : bool :=
  String.prefix needle hay ||
  match hay with
  | EmptyString => false
  | String _ rest => contains needle rest
  end.


(** *** Static shapes *)

(** Broadcasting: the axes are aligned at the right, and an axis of size 1
    takes the size of the other one, which may be 0.  TensorFlow raises on
    two sizes that differ and are both not 1; the script adds no such
    shapes. *)
Definition broadcast_shape (s1 s2 : list nat) : list nat :=
  let n := length s1 `max` length s2 in
  zip_with (λ d1 d2, if decide (d1 = 1) then d2 else d1)
    (replicate (n - length s1) 1 ++ s1) (replicate (n - length s2) 1 ++ s2).

(** The shape asked of [tf.reshape], with its one [-1] filled in. *)
Definition resolve_shape (size : nat) (target : list Z) : list nat :=
  let known := foldr Nat.mul 1 (Z.to_nat <$> filter (λ d, 0 ≤ d)%Z target) in
  (λ d, if decide (d < 0)%Z then size `div` known else Z.to_nat d) <$> target.

Fixpoint shape (t : tensor) : list nat :=
  match t with
  | Var _ s _ _ | Placeholder _ s => s
  | FloatCast x _ _ | Cast x _ | BiasRelu x _ _ _ | LayerNorm x _ _ _ _ => shape x
  | EmbeddingLookup emb ids => shape ids ++ drop 1 (shape emb)
  | Add a b | Mul a b | Div a b | Minimum a b => broadcast_shape (shape a) (shape b)
  | MatMul a b transpose_b =>
      take 1 (shape a) ++ (if transpose_b then take 1 (shape b) else drop 1 (shape b))
  | Reshape x target => resolve_shape (foldr Nat.mul 1 (shape x)) target
  | WeightValueOp _ _ v => shape v
  | _ => []
  end.

(** [x.shape[-1].value]; every tensor it is asked of has a last axis. *)
Definition last_dim (x : tensor) : nat := default 0 (last (shape x)).

(** [x.shape.ndims] *)
Definition ndims (x : tensor) : nat := length (shape x).

(** *** Building: variable scopes and the collection of trainable
    variables are threaded through, and a Python exception ends the
    construction.  Device placement is left out. *)

Record graph := Graph {
  scope : list string;                (* the open variable scopes, outermost first *)
  trainable_variables : list tensor   (* in the order of creation *)
}.

Definition build (A : Type) : Type := graph → result (A * graph).

#[global] Instance build_ret : MRet build := λ A a g, Ok (a, g).
#[global] Instance build_bind : MBind build := λ A B f m g,
  match m g with
  | Ok (a, g') => f a g'
  | Raise e => Raise e
  end.

Definition raise {A} (e : exn) : build A := λ _, Raise e.

(** [with tf.variable_scope(name): body] *)
Definition variable_scope {A} (name : string) (body : build A) : build A := λ g,
  match body (Graph (scope g ++ [name]) (trainable_variables g)) with
  | Ok (a, g') => Ok (a, Graph (scope g) (trainable_variables g'))
  | Raise e => Raise e
  end.

(** [tf.get_variable(name, shape, initializer=init)]: a new trainable
    variable in the open scope.  TensorFlow raises on a name that is taken;
    the script asks for each name once ([variable_paths_distinct] below). *)
Definition get_variable (name : string) (shape : list nat) (init : initializer)
    : build tensor := λ g,
  let v := Var (scope g ++ [name]) shape init true in
  Ok (v, Graph (scope g) (trainable_variables g ++ [v])).

(** [tf.Variable(value, trainable=False)], which TensorFlow names
    [Variable] in the open scope. *)
Definition untrained_variable (value : Q) : build tensor := λ g,
  Ok (Var (scope g ++ ["Variable"]) [] (constant_initializer value) false, g).

(** [tf.trainable_variables()] *)
Definition get_trainable_variables : build (list tensor) := λ g,
  Ok (trainable_variables g, g).

(** Python's [a / b] on numbers *)
Definition truediv (a b : Q) : build Q :=
  if Qeq_bool b 0 then raise ZeroDivisionError else mret (a / b)%Q.

Definition of_nat (n : nat) : Q := inject_Z (Z.of_nat n).

(** *** Constants of Python floats

    [tf.constant(x)] of a Python float [x] is a float32 tensor: the
    binary64 number [x] rounded to the nearest number with 24 bits of
    precision.  Both formats are those of [SpecFloat], at their precision
    and exponent range. *)

(** [float(n)], the conversion that [1.0 / n] applies to an int [n]. *)
Definition binary64_of_int (n : Z) : spec_float :=
  binary_normalize 53 1024 n 0 false.

(** [1.0 / n] for an int [n] that is not zero and that a float can hold,
    as a process count, an int of C, is. *)
Definition reciprocal (n : nat) : spec_float :=
  SFdiv 53 1024 (SFone 53 1024) (binary64_of_int (Z.of_nat n)).

(** The conversion of a binary64 number to float32. *)
Definition float32_of (x : spec_float) : spec_float :=
  match x with
  | S754_finite sign m e => binary_round 24 128 sign m e
  | _ => x
  end.

(** The number a finite float is.  An infinity or a NaN is no number; the
    reciprocal of an int that is not zero is neither. *)
Definition rational_of (x : spec_float) : Q :=
  match x with
  | S754_finite sign m e => (if sign then -1 else 1) * inject_Z (Z.pos m) * 2 ^ e
  | _ => 0
  end.

(** [tf.constant(x)] for a Python float [x]. *)
Definition float32_constant (x : spec_float) : tensor :=
  Constant (rational_of (float32_of x)).

(** [m], run in [g], returns a value that satisfies [P], leaves the open
    scopes as they are and creates the trainable variables of the given
    paths below the open scope, in this order. *)
Definition creates {A} (m : build A) (g : graph) (paths : list (list string))
    (P : A → Prop) : Prop :=
  ∃ a vs, m g = Ok (a, Graph (scope g) (trainable_variables g ++ vs))
          ∧ var_path <$> vs = (λ p, scope g ++ p) <$> paths
          ∧ P a.

End Tf.

Module Model.
Import Tf.

(** Lines 25-33. *)
Definition layernorm (x : tensor) (scope : string) (epsilon : Q) (relu : bool)
    : build tensor :=
  let n_state := last_dim x in
  variable_scope scope (
    gain ← get_variable "gain" [n_state] (constant_initializer 1);
    bias ← get_variable "bias" [n_state] (constant_initializer 0);
    mret (LayerNorm x gain bias epsilon relu)).

(** The default [epsilon=1e-5] of [layernorm]. *)
Definition epsilon_default : Q := 1 # 100000.

(** Lines 89-91. *)
Definition fp16 (x : tensor) : tensor := FloatCast x float16 (Some float16).

(** Lines 36-55.  [y_shape], built in the script from [tf.shape(x)], is
    given by the static shape. *)
Definition conv1d (x : tensor) (scope : string) (nf : nat) (relu : bool)
    : build tensor :=
  variable_scope scope (
    let nx := last_dim x in
    let nd := ndims x in
    w ← get_variable "w" [nx; nf] (random_normal_initializer (2 # 100));
    b ← get_variable "b" [nf] (constant_initializer 0);
    let y_shape := (Z.of_nat <$> take (nd - 1) (shape x)) ++ [Z.of_nat nf] in
    let x := if decide (2 < nd) then Reshape x [(-1)%Z; Z.of_nat nx] else x in
    let y := BiasRelu (MatMul x (fp16 w) false) b relu false in
    let y := if decide (2 < nd) then Reshape y y_shape else y in
    mret y).

(** Lines 98-115. *)
Definition attention (x : tensor) (scope : string) (n_head n_timesteps : nat)
    : build tensor :=
  let n_state := last_dim x in
  variable_scope scope (
    queries ← conv1d x "q" n_state false;
    keys ← conv1d x "k" n_state false;
    values ← conv1d x "v" n_state false;
    let bst := Attention.get_blocksparse_attention_ops n_timesteps n_head in
    let attention_energies := QueryKeyOp bst queries keys in
    scale ← truediv (of_nat n_state) (of_nat n_head);
    let attention_weights := MaskedSoftmax bst attention_energies (Rsqrt (Constant scale)) in
    let weighted_values := WeightValueOp bst attention_weights values in
    conv1d weighted_values "proj" n_state false).

(** The variables one [transformer_block] creates, below its scope. *)
Definition block_paths : list (list string) :=
  [ ["attention"; "q"; "w"]; ["attention"; "q"; "b"];
    ["attention"; "k"; "w"]; ["attention"; "k"; "b"];
    ["attention"; "v"; "w"]; ["attention"; "v"; "b"];
    ["attention"; "proj"; "w"]; ["attention"; "proj"; "b"];
    ["norm_a"; "gain"]; ["norm_a"; "bias"];
    ["mlp"; "hidden"; "w"]; ["mlp"; "hidden"; "b"];
    ["mlp"; "residual"; "w"]; ["mlp"; "residual"; "b"];
    ["norm_m"; "gain"]; ["norm_m"; "bias"] ]%string.

(** ['layer_%d' % l] *)
Definition layer_name (l : nat) : string := ("layer_" +:+ str l)%string.

(** Lines 118-126, with the default [ratio=4]. *)
Definition mlp (x : tensor) (scope : string) : build tensor :=
  let ratio := 4 in
  let n_state := last_dim x in
  variable_scope scope (
    hidden ← conv1d x "hidden" (n_state * ratio) true;
    residual ← conv1d hidden "residual" n_state false;
    mret (Add x residual)).

(** Lines 129-139. *)
Definition transformer_block (x : tensor) (scope : string) (n_head n_timesteps : nat)
    : build tensor :=
  variable_scope scope (
    a ← attention x "attention" n_head n_timesteps;
    a ← layernorm (Add a x) "norm_a" epsilon_default false;
    m ← mlp a "mlp";
    layernorm (Add m a) "norm_m" epsilon_default false).

(** Lines 165-168: the loop over the layers, which also extends
    [grad_groups] at its front. *)
Fixpoint layers (hps : Hps.t) (h : tensor) (grad_groups : list string)
    (range : list nat) : build (tensor * list string) :=
  match range with
  | [] => mret (h, grad_groups)
  | l :: range =>
      let layer_name := layer_name l in
      h ← transformer_block h layer_name (Hps.n_head hps) (Hps.n_timesteps hps);
      layers hps h (layer_name :: grad_groups) range
  end.

(** Lines 159-163: the variables of scope [embed] and the embedded
    input. *)
Definition embed (hps : Hps.t) (xs : tensor) : build (tensor * tensor) :=
  variable_scope "embed" (
    x ← get_variable "x" [Hps.n_vocab hps; Hps.n_state hps]
          (random_normal_initializer (2 # 100));
    let x_embed := fp16 x in
    pos ← get_variable "pos" [1; Hps.n_timesteps hps; Hps.n_state hps]
            (random_normal_initializer (1 # 100));
    let pos_embed := fp16 pos in
    mret (x_embed, Add (EmbeddingLookup x_embed xs) pos_embed)).

(** Lines 171-173. *)
Definition logits_of (hps : Hps.t) (h x_embed : tensor) : build tensor :=
  variable_scope "logits" (
    let h := Reshape h [(-1)%Z; Z.of_nat (Hps.n_state hps)] in
    mret (MatMul h x_embed true)).

(** Modelled from the spec: [group_allreduce] is the library's
    multi-process gradient all-reduce and is not part of the script.  The
    script does not bind its result, so it replaces the entries of the list
    [grads] it is given. *)
Definition group_allreduce (grads : list tensor) (search_strings : list string)
    : list tensor :=
  (λ grad, GroupAllreduce grad search_strings) <$> grads.

(** Lines 194-196. *)
Definition log_all_stats (global_step : tensor) (grads params : list tensor)
    : list tensor :=
  zip_with (λ grad param,
      let name := (op_name param +:+ "_" +:+ String.concat "_" (str <$> shape param))%string in
      LogStats grad (Cast global_step int32) "scale_stats.txt" name)
    grads params.

(** Lines 200-211. *)
Fixpoint split_grads (grads_and_params fact_grads adam_grads : list (tensor * tensor))
    : list (tensor * tensor) * list (tensor * tensor) :=
  match grads_and_params with
  | [] => (fact_grads, adam_grads)
  | (grad, param) :: rest =>
      if contains "embed" (op_name param)
      then split_grads rest fact_grads (adam_grads ++ [(grad, param)])
      else split_grads rest (fact_grads ++ [(grad, param)]) adam_grads
  end.

(** The test of line 203 on a (gradient, parameter) pair. *)
Definition for_adam (gp : tensor * tensor) : Prop :=
  contains "embed" (op_name gp.2) = true.

(** What [model] returns, with the values the properties speak of. *)
Record outputs := Outputs {
  loss : tensor;
  run_op : op;              (* [tf.group(train_op, update_op)] *)
  global_norm : tensor;
  norm_scale : tensor;
  (* local values of the function *)
  x_embed : tensor;
  logits : tensor;
  local_loss : tensor;      (* [loss] before line 185 *)
  params : list tensor;
  grads : list tensor;      (* as they reach the optimizers *)
  fact_grads : list (tensor * tensor);
  adam_grads : list (tensor * tensor);
  train_op : op
}.

(** Lines 178-221: what [model] does once the variables exist and the
    logits are built.  Under [mpi_size > 1] the division [1.0 / mpi_size]
    cannot raise. *)
Definition assemble (hps : Hps.t) (mpi_size mpi_rank : nat)
    (ys cost_scale grad_scale global_step learning_rate x_embed logits : tensor)
    (grad_groups : list string) (params : list tensor) : outputs :=
  let loss := SoftmaxCrossEntropy logits ys in
  let loss := ReduceMean loss in
  let local_loss := loss in
  let grads := (λ param, Gradient (ScaleTensor loss cost_scale) param) <$> params in
  let loss := if decide (1 < mpi_size)
              then Mul (Allreduce loss) (float32_constant (reciprocal mpi_size))
              else loss in
  let grads := if decide (1 < mpi_size)
               then group_allreduce grads grad_groups else grads in
  let global_norm := GlobalNorm grads grad_scale (Hps.clip_norm hps) in
  let norm_scale := NormScale grads grad_scale (Hps.clip_norm hps) in
  let grads := if decide (Hps.log_stats hps ≠ 0%Z ∧ mpi_rank = 0)
               then log_all_stats global_step grads params else grads in
  let '(fact_grads, adam_grads) := split_grads (zip grads params) [] [] in
  let fact := AdafactorOptimizer learning_rate norm_scale grad_scale in
  let adam := AdamOptimizer learning_rate norm_scale grad_scale in
  let train_op := Group [ApplyGradients fact fact_grads; ApplyGradients adam adam_grads] in
  let update_op := AssignAdd global_step 1 [train_op] in
  {| loss := loss; run_op := Group [train_op; update_op];
     global_norm := global_norm; norm_scale := norm_scale;
     x_embed := x_embed; logits := logits; local_loss := local_loss;
     params := params; grads := grads;
     fact_grads := fact_grads; adam_grads := adam_grads;
     train_op := train_op |}.

(** Lines 142-221: [model(xs, ys, cost_scale, grad_scale)], with the
    globals [hps], [mpi_size] and [mpi_rank] it reads. *)
Definition model (hps : Hps.t) (mpi_size mpi_rank : nat)
    (xs ys cost_scale grad_scale : tensor) : build outputs :=
  variable_scope "model" (
    global_step ← untrained_variable 1;
    warmup ← truediv 1 (of_nat (Hps.warmup_iters hps));
    let learning_rate :=
      Mul (Minimum (Mul global_step (Constant warmup)) (Constant 1))
          (Constant (Hps.lr hps)) in
    let grad_groups := [] in
    '(x_embed, h) ← embed hps xs;
    let grad_groups := "embed" :: grad_groups in
    '(h, grad_groups) ← layers hps h grad_groups (seq 0 (Hps.n_layer hps));
    logits ← logits_of hps h x_embed;
    params ← get_trainable_variables;
    mret (assemble hps mpi_size mpi_rank ys cost_scale grad_scale
            global_step learning_rate x_embed logits grad_groups params)).

(** Lines 288-301: the placeholders, [grad_scale] and the call of
    [model], in an empty graph. *)
Definition X_placeholder (hps : Hps.t) : tensor :=
  Placeholder "X" [Hps.n_batch hps; Hps.n_timesteps hps].
Definition Y_placeholder (hps : Hps.t) : tensor :=
  Placeholder "Y" [Hps.n_batch hps; Hps.n_timesteps hps].
Definition cost_scale_placeholder : tensor := Placeholder "cost_scale" [].

Definition grad_scale_of (cost_scale : tensor) (mpi_size : nat) : tensor :=
  Div (Constant 1) (Mul cost_scale (Constant (of_nat mpi_size))).

Definition main_graph (hps : Hps.t) (mpi_size mpi_rank : nat) : result outputs :=
  let X := X_placeholder hps in
  let Y := Y_placeholder hps in
  let cost_scale := cost_scale_placeholder in
  let grad_scale := grad_scale_of cost_scale mpi_size in
  fst <$> model hps mpi_size mpi_rank X Y cost_scale grad_scale (Graph [] []).

(** *** Names for the nodes the properties speak of *)

(** The variable [x] of scope [embed] and its half-precision cast
    [x_embed] (line 160). *)
Definition x_variable (hps : Hps.t) : tensor :=
  Var ["model"; "embed"; "x"] [Hps.n_vocab hps; Hps.n_state hps]
      (random_normal_initializer (2 # 100)) true.

(** The variable [pos] (line 161). *)
Definition pos_variable (hps : Hps.t) : tensor :=
  Var ["model"; "embed"; "pos"] [1; Hps.n_timesteps hps; Hps.n_state hps]
      (random_normal_initializer (1 # 100)) true.

(** [h] of line 162. *)
Definition embedded_input (hps : Hps.t) : tensor :=
  Add (EmbeddingLookup (fp16 (x_variable hps)) (X_placeholder hps))
      (fp16 (pos_variable hps)).

(** [global_step] and [learning_rate] (lines 147-148). *)
Definition global_step_variable : tensor :=
  Var ["model"; "Variable"] [] (constant_initializer 1) false.
Definition learning_rate_of (hps : Hps.t) : tensor :=
  Mul (Minimum (Mul global_step_variable
                    (Constant (1 / of_nat (Hps.warmup_iters hps))))
               (Constant 1))
      (Constant (Hps.lr hps)).

(** The optimizers of an op that applies gradients, and of a group. *)
Definition optimizers_of (o : op) : list optimizer :=
  match o with
  | Group ops =>
      ops ≫= λ o, match o with ApplyGradients opt _ => [opt] | _ => [] end
  | ApplyGradients opt _ => [opt]
  | AssignAdd _ _ _ => []
  end.


End Model.

(** ** Values across the processes *)

Module Run.
Import Tf.

(** Modelled from the spec: [allreduce] belongs to the imported library;
    it is taken as the summation of its argument across the processes. *)
Definition allreduce (per_process : list Q) : Q := foldr Qplus 0%Q per_process.

(** The value process [rank] computes for a scalar node: the arithmetic
    nodes and the all-reduce are interpreted, every other node has the
    value [local rank] gives it (a placeholder its fed value, a local
    computation its result on that process). *)
Fixpoint value (mpi_size : nat) (local : nat → tensor → Q) (rank : nat)
    (t : tensor) : Q :=
  match t with
  | Constant c => c
  | Mul a b => value mpi_size local rank a * value mpi_size local rank b
  | Div a b => value mpi_size local rank a / value mpi_size local rank b
  | Allreduce a => allreduce ((λ p, value mpi_size local p a) <$> seq 0 mpi_size)
  | _ => local rank t
  end.

(** The arithmetic mean of the per-process values. *)
Definition mean (per_process : list Q) : Q :=
  (foldr Qplus 0 per_process / Tf.of_nat (length per_process))%Q.




(** Whether an all-reduce node occurs in a scalar expression. *)
Fixpoint has_allreduce (t : tensor) : bool :=
  match t with
  | Allreduce _ => true
  | Mul a b | Div a b | Add a b | Minimum a b => has_allreduce a || has_allreduce b
  | ReduceMean x | Rsqrt x | Cast x _ | FloatCast x _ _ => has_allreduce x
  | SoftmaxCrossEntropy a b | ScaleTensor a b | MatMul a b _
  | EmbeddingLookup a b | BiasRelu a b _ _ | QueryKeyOp _ a b
  | MaskedSoftmax _ a b | WeightValueOp _ a b => has_allreduce a || has_allreduce b
  | LayerNorm x g b _ _ => has_allreduce x || has_allreduce g || has_allreduce b
  | Reshape x _ => has_allreduce x
  | Gradient y x => has_allreduce y || has_allreduce x
  | LogStats x s _ _ => has_allreduce x || has_allreduce s
  | GroupAllreduce _ _ => true
  | GlobalNorm _ _ _ | NormScale _ _ _ => true
  | Var _ _ _ _ | Placeholder _ _ | Constant _ => false
  end.

(** [y] has an all-reduce in it exactly when [x] has. *)
Definition same_allreduce (x y : tensor) : Prop :=
  has_allreduce y = has_allreduce x.

End Run.

(** ** The validation and test passes (lines 341-358) *)

Module Evaluation.

(** [sum(losses) / len(losses)]: Python's [sum] adds from the left,
    starting from the integer 0, and the division of that 0 by the length 0
    of an empty list raises.  The losses are taken as exact rationals. *)
Definition average (losses : list Q) : result Q :=
  if decide (length losses = 0) then Raise ZeroDivisionError
  else Ok (foldl Qplus 0 losses / Tf.of_nat (length losses))%Q.

(** One pass over an array: a loss per yielded minibatch, appended to the
    list, then the average; an exception of [iter_data] ends the pass.
    [sess_run_loss] stands for [sess.run(loss, ...)] on a minibatch. *)
Definition pass (sess_run_loss : list (list byte) * list (list byte) → Q)
    (X : list byte) (n_timesteps n_batch mpi_rank mpi_size : nat)
    (rng : Data.draws) : result Q :=
  let run := Data.iter_data X n_timesteps n_batch mpi_rank mpi_size rng in
  match raised run with
  | Some e => Raise e
  | None => average (sess_run_loss <$> yielded run)
  end.

End Evaluation.

(** ** Measures of a boolean array *)

Module Blocks.

(** [a.shape == (rows, cols)] *)
Definition shape_is (a : list (list bool)) (rows cols : nat) : Prop :=
  length a = rows ∧ Forall (λ row, length row = cols) a.

(** [a.sum()]: the number of entries that are 1. *)
Definition ones_in (a : list (list bool)) : nat :=
  sum_list_with (λ row, length (filter Is_true row)) a.

(** The lower triangle with its diagonal, [rows] by [cols]. *)
Definition lower_triangle (rows cols : nat) : list (list bool) :=
  (λ q, (λ k, bool_decide (k ≤ q)) <$> seq 0 cols) <$> seq 0 rows.

End Blocks.

(** ** More views of the graph *)

Module Views.
Import Tf.

(** [m], run in [g], returns a value that satisfies [P], leaves the open
    scopes as they are and creates trainable variables of the given shapes,
    in this order. *)
Definition creates_shapes {A} (m : build A) (g : graph) (shapes : list (list nat))
    (P : A → Prop) : Prop :=
  ∃ a vs, m g = Ok (a, Graph (scope g) (trainable_variables g ++ vs))
          ∧ shape <$> vs = shapes
          ∧ P a.

(** The shapes of the variables one [transformer_block] creates on a state
    of width [n_state], in the order of [Model.block_paths]. *)
Definition block_shapes (n_state : nat) : list (list nat) :=
  [ [n_state; n_state]; [n_state]; [n_state; n_state]; [n_state];
    [n_state; n_state]; [n_state]; [n_state; n_state]; [n_state];
    [n_state]; [n_state];
    [n_state; n_state * 4]; [n_state * 4]; [n_state * 4; n_state]; [n_state];
    [n_state]; [n_state] ].

(** The node [tf.gradients] made, below the wrappers that the all-reduce
    and the statistics log put around it: what was differentiated and by
    which parameter. *)
Fixpoint gradient_of (t : tensor) : option (tensor * tensor) :=
  match t with
  | Gradient y x => Some (y, x)
  | GroupAllreduce grad _ => gradient_of grad
  | LogStats x _ _ _ => gradient_of x
  | _ => None
  end.

(** The search strings that occur in a name. *)
Definition matching_groups (search_strings : list string) (name : string) : list string :=
  filter (λ group, contains group name = true) search_strings.

(** The search strings a gradient was all-reduced with, if it was. *)
Fixpoint search_strings_of (t : tensor) : option (list string) :=
  match t with
  | GroupAllreduce _ search_strings => Some search_strings
  | LogStats x _ _ _ => search_strings_of x
  | _ => None
  end.

(** The paths of all trainable variables of a model of [n_layer] layers,
    and [grad_groups] as line 188 passes it on. *)
Definition all_paths (n_layer : nat) : list (list string) :=
  ["model"; "embed"; "x"] :: ["model"; "embed"; "pos"]
  :: (l ← seq 0 n_layer;
      (λ p, "model"%string :: Model.layer_name l :: p) <$> Model.block_paths).

Definition all_groups (n_layer : nat) : list string :=
  reverse (Model.layer_name <$> seq 0 n_layer) ++ ["embed"].

(** The [learning_rate] an optimizer was given. *)
Definition learning_rate_given (opt : optimizer) : tensor :=
  match opt with
  | AdafactorOptimizer learning_rate _ _ | AdamOptimizer learning_rate _ _ => learning_rate
  end.

(** The value of a scalar node built from constants, products, quotients
    and minima, where [env] gives the value of every other node. *)
Fixpoint scalar (env : tensor → Q) (t : tensor) : Q :=
  match t with
  | Constant c => c
  | Mul a b => scalar env a * scalar env b
  | Div a b => scalar env a / scalar env b
  | Minimum a b => Qmin (scalar env a) (scalar env b)
  | _ => env t
  end.

(** The defaults with [--n_layer 12]. *)
Definition twelve_layers : Hps.t :=
  Hps.Make 32 512 4 12 320 256 (5 # 10000) 1 1000 0.

(** The defaults with [--warmup_iters 0]. *)
Definition no_warmup : Hps.t :=
  Hps.Make 32 512 4 6 320 256 (5 # 10000) 1 0 0.
End Views.

(** * Properties *)

(** ** Arrays and the attention structure *)

Section array_facts.
Context {A : Type}.
Implicit Types (a : Np.array2 A) (v : A).

Lemma get_set a q k v q' k' :
  Np.get (Np.set a q k v) q' k' =
  if decide (q = q' ∧ k = k') then (λ _, v) <$> Np.get a q' k' else Np.get a q' k'.
Proof.
  unfold Np.get, Np.set.
  destruct (decide (q = q')) as [<-|Hq].
  - rewrite list_lookup_alter_eq. destruct (a !! q) as [row|]; simpl.
    + destruct (decide (k = k')) as [<-|Hk].
      * rewrite decide_True by done.
        destruct (row !! k) eqn:E.
        -- rewrite list_lookup_insert_eq; [done|]. by eapply lookup_lt_Some.
        -- simpl. apply lookup_ge_None. rewrite length_insert. by apply lookup_ge_None.
      * rewrite decide_False by (by intros [_ ?]). by rewrite list_lookup_insert_ne.
    + by case_decide.
  - rewrite list_lookup_alter_ne by done. by rewrite decide_False by (by intros [? _]).
Qed.
End array_facts.

Lemma get_ones rows cols q k :
  q < rows → k < cols → Np.get (Np.ones rows cols) q k = Some true.
Proof.
  intros Hq Hk. unfold Np.get, Np.ones.
  rewrite lookup_replicate_2 by done. simpl. by rewrite lookup_replicate_2.
Qed.

Lemma elem_of_ndindex rows cols q k :
  (q, k) ∈ Np.ndindex rows cols ↔ q < rows ∧ k < cols.
Proof.
  unfold Np.ndindex. rewrite list_elem_of_bind. split.
  - intros (q' & Hin & Hq'). apply list_elem_of_fmap in Hin as (k' & Heq & Hk').
    simplify_eq. apply elem_of_seq in Hq', Hk'. lia.
  - intros [Hq Hk]. exists q. split.
    + apply list_elem_of_fmap. exists k. split; [done|]. apply elem_of_seq. lia.
    + apply elem_of_seq. lia.
Qed.

Lemma get_clear_future_loop l m q k :
  Np.get (foldl Attention.clear_future m l) q k =
  if decide ((q, k) ∈ l ∧ q < k) then (λ _, false) <$> Np.get m q k else Np.get m q k.
Proof.
  revert m. induction l as [|[q0 k0] l IH]; intros m; cbn [foldl].
  - rewrite decide_False; [done|]. rewrite elem_of_nil. tauto.
  - rewrite IH. unfold Attention.clear_future.
    destruct (decide (q0 < k0)) as [Hlt|Hge].
    + rewrite get_set. destruct (decide (q0 = q ∧ k0 = k)) as [[-> ->]|Hne].
      * rewrite (decide_True (P := _ ∈ _ :: _ ∧ _)) by (split; [left|done]).
        destruct (Np.get m q k); by case_decide.
      * destruct (decide ((q, k) ∈ l ∧ q < k)) as [[??]|Hn].
        -- rewrite decide_True; [done|]. split; [by right|done].
        -- rewrite decide_False; [done|]. rewrite elem_of_cons.
           intros [[Heq|Hin] Hqk]; [simplify_eq; by apply Hne|by apply Hn].
    + destruct (decide ((q, k) ∈ l ∧ q < k)) as [[??]|Hn].
      * rewrite decide_True; [done|]. split; [by right|done].
      * rewrite decide_False; [done|]. rewrite elem_of_cons. intros [[?|?] ?]; [|tauto].
        simplify_eq. lia.
Qed.

Lemma causal_subblock_mask_get rows cols head_idx query_idx key_idx blk_idx q k :
  q < rows → k < cols →
  Np.get (Attention.causal_subblock_mask (rows, cols) head_idx query_idx key_idx blk_idx) q k
  = Some (if decide (query_idx = key_idx) then bool_decide (k ≤ q) else true).
Proof.
  intros Hq Hk. unfold Attention.causal_subblock_mask. cbn [fst snd].
  destruct (decide (query_idx = key_idx)) as [_|_]; [|by apply get_ones].
  change (foldl _ ?m ?l) with (foldl Attention.clear_future m l).
  rewrite get_clear_future_loop, get_ones by done.
  destruct (decide (q < k)).
  - rewrite decide_True by (by rewrite elem_of_ndindex).
    rewrite bool_decide_eq_false_2 by lia. done.
  - rewrite decide_False by tauto. rewrite bool_decide_eq_true_2 by lia. done.
Qed.

Lemma layout_get n_timesteps n_heads qb kb :
  qb < n_timesteps `div` 64 → kb < n_timesteps `div` 64 →
  Np.get (Attention.layout (Attention.get_blocksparse_attention_ops n_timesteps n_heads)) qb kb
  = Some (bool_decide (kb ≤ qb)).
Proof.
  intros Hq Hk. unfold Attention.get_blocksparse_attention_ops. cbn [Attention.layout].
  change (foldl _ ?m ?l) with (foldl Attention.clear_future m l).
  rewrite get_clear_future_loop, get_ones by done.
  destruct (decide (qb < kb)).
  - rewrite decide_True by (by rewrite elem_of_ndindex).
    rewrite bool_decide_eq_false_2 by lia. done.
  - rewrite decide_False by tauto. rewrite bool_decide_eq_true_2 by lia. done.
Qed.

Lemma position_order i j :
  j ≤ i ↔ j `div` 64 < i `div` 64 ∨ (j `div` 64 = i `div` 64 ∧ j `mod` 64 ≤ i `mod` 64).
Proof.
  pose proof (Nat.div_mod_eq i 64). pose proof (Nat.div_mod_eq j 64).
  pose proof (Nat.mod_upper_bound i 64). pose proof (Nat.mod_upper_bound j 64).
  lia.
Qed.

Example layout_of_two_blocks :
  Attention.layout (Attention.get_blocksparse_attention_ops 128 4)
  = [[true; false]; [true; true]].
Proof. reflexivity. Qed.

Example mask_on_the_diagonal :
  Attention.causal_subblock_mask (3, 3) 0 1 1 5
  = [[true; false; false]; [true; true; false]; [true; true; true]].
Proof. reflexivity. Qed.

Example mask_off_the_diagonal :
  Attention.causal_subblock_mask (2, 2) 0 1 0 5 = [[true; true]; [true; true]].
Proof. reflexivity. Qed.

(** C1: for a positive multiple of 64 as [n_timesteps], the layout has a
    1 at block [(qb, kb)] exactly when [kb <= qb]; the mask of the callback
    is all ones for a block off the diagonal and, for a block on it, has a 0
    at [(q, k)] exactly when [k > q]; together they let position [i] attend
    to position [j] exactly when [j <= i]. *)
Theorem causal_attention_structure n_timesteps n_heads :
  0 < n_timesteps → n_timesteps `mod` 64 = 0 →
  let bst := Attention.get_blocksparse_attention_ops n_timesteps n_heads in
  (∀ qb kb, qb < n_timesteps `div` 64 → kb < n_timesteps `div` 64 →
     Np.get (Attention.layout bst) qb kb = Some (bool_decide (kb ≤ qb)))
  ∧ (∀ rows cols head_idx query_idx key_idx blk_idx q k, q < rows → k < cols →
     Np.get (Attention.mask_callback bst (rows, cols) head_idx query_idx key_idx blk_idx) q k
     = Some (if decide (query_idx = key_idx) then bool_decide (k ≤ q) else true))
  ∧ (∀ head_idx i j, i < n_timesteps → j < n_timesteps →
     Attention.attends bst head_idx i j = true ↔ j ≤ i).
Proof.
  intros Hpos Hmul bst. split; [|split].
  - intros qb kb. apply layout_get.
  - intros. by apply causal_subblock_mask_get.
  - intros head_idx i j Hi Hj.
    assert (Hblocks : ∀ p, p < n_timesteps → p `div` 64 < n_timesteps `div` 64).
    { intros p Hp. pose proof (Nat.div_mod_eq n_timesteps 64).
      pose proof (Nat.div_mod_eq p 64). pose proof (Nat.mod_upper_bound p 64). lia. }
    unfold Attention.attends.
    change (Attention.block_size bst) with 64.
    change (Attention.mask_callback bst) with Attention.causal_subblock_mask.
    subst bst. rewrite layout_get by auto.
    rewrite causal_subblock_mask_get by (apply Nat.mod_upper_bound; lia).
    rewrite (position_order i j).
    generalize (i `div` 64) (j `div` 64) (i `mod` 64) (j `mod` 64).
    intros qb kb q k.
    destruct (decide (qb = kb)) as [Heq|Hne].
    + rewrite bool_decide_eq_true_2 by lia. simpl.
      rewrite bool_decide_eq_true. lia.
    + case_bool_decide; simpl; [lia|]. split; [done|lia].
Qed.

Lemma causal_attention_structure_witness :
  0 < 128 ∧ 128 `mod` 64 = 0
  ∧ (Attention.attends (Attention.get_blocksparse_attention_ops 128 4) 0 70 3 = true
     ↔ 3 ≤ 70).
Proof.
  assert (0 < 128) as H0 by lia.
  assert (128 `mod` 64 = 0) as H1 by reflexivity.
  split; [exact H0|]. split; [exact H1|].
  apply (proj2 (proj2 (causal_attention_structure 128 4 H0 H1)) 0 70 3); lia.
Defined.

(** ** Minibatches *)

Import Data.

Section slices.
Context {A : Type}.
Implicit Types X : list A.

Lemma length_slice X a b : length (slice X a b) = (b - a) `min` (length X - a).
Proof. unfold slice. by rewrite length_take, length_drop. Qed.

Lemma lookup_slice X a b t : t < b - a → slice X a b !! t = X !! (a + t).
Proof. intros Ht. unfold slice. by rewrite lookup_take_lt, lookup_drop. Qed.

Lemma elem_of_slice X a b x : x ∈ slice X a b → x ∈ X.
Proof.
  unfold slice. intros Hx. apply subseteq_take in Hx.
  by apply subseteq_drop in Hx.
Qed.
End slices.

Lemma arange_bounds start stop step x :
  x ∈ arange start stop step → start ≤ x ∧ x < stop.
Proof.
  intros Hx. unfold arange in Hx.
  destruct (decide (step = 0)) as [->|Hstep]; [by apply elem_of_nil in Hx|].
  apply list_elem_of_fmap in Hx as (i & -> & Hi). apply elem_of_seq in Hi as [_ Hi].
  cbn [Nat.add] in Hi.
  split; [lia|].
  assert (i + 1 ≤ (stop - start + (step - 1)) `div` step) as Hle by lia.
  apply (Nat.mul_le_mono_r _ _ step) in Hle.
  pose proof (Nat.Div0.mul_div_le (stop - start + (step - 1)) step). nia.
Qed.

Lemma for_yield_ok {A} (body : nat → result A) (f : nat → A) range :
  (∀ i, i ∈ range → body i = Ok (f i)) →
  for_yield body range = Trace (f <$> range) None.
Proof.
  induction range as [|i range IH]; intros Hbody; [done|].
  cbn [for_yield]. rewrite Hbody by left. rewrite IH; [done|].
  intros j Hj. apply Hbody. by right.
Qed.

Lemma for_yield_raise {A} (body : nat → result A) e range :
  (∀ i, i ∈ range → body i = Raise e) →
  yielded (for_yield body range) = [].
Proof.
  destruct range as [|i range]; intros Hbody; [done|].
  cbn [for_yield]. by rewrite Hbody by left.
Qed.

Lemma broadcast_row_full w v : length v = w → broadcast_row w v = Ok v.
Proof. intros H. unfold broadcast_row. by rewrite decide_True. Qed.

Lemma fill_rows_windows X n_timesteps starting_indices k x :
  Forall (λ s, s + n_timesteps + 1 ≤ length X) starting_indices →
  k + length starting_indices ≤ length x →
  fill_rows X n_timesteps x (imap (λ i s, (k + i, s)) starting_indices)
  = Ok (take k x ++ windows X n_timesteps starting_indices
          ++ drop (k + length starting_indices) x).
Proof.
  revert k x. induction starting_indices as [|s starts IH]; intros k x Hin Hlen.
  - cbn. by rewrite Nat.add_0_r, take_drop.
  - apply Forall_cons in Hin as [Hs Hin]. cbn [length] in Hlen.
    rewrite imap_cons. cbn [fill_rows].
    rewrite broadcast_row_full by (rewrite length_slice; lia).
    cbn [mbind result_bind].
    rewrite (imap_ext _ (λ i s, (S k + i, s))) by (intros; cbn; f_equal; lia).
    rewrite IH by (rewrite ?length_insert; done || lia).
    f_equal. rewrite Nat.add_0_r.
    rewrite (take_S_r _ _ (slice X s (s + n_timesteps + 1)))
      by (apply list_lookup_insert_eq; lia).
    rewrite take_insert_ge by lia. rewrite drop_insert_lt by lia.
    cbn [windows fmap list_fmap length].
    rewrite <- app_assoc. cbn. replace (k + S (length starts)) with (S (k + length starts)) by lia. done.
Qed.

Lemma fill_rows_enumerate X n_timesteps n_batch starting_indices :
  Forall (λ s, s + n_timesteps + 1 ≤ length X) starting_indices →
  length starting_indices = n_batch →
  fill_rows X n_timesteps (zeros n_batch (n_timesteps + 1)) (enumerate starting_indices)
  = Ok (windows X n_timesteps starting_indices).
Proof.
  intros Hin Hlen.
  change (enumerate starting_indices) with (imap (λ i s, (0 + i, s)) starting_indices).
  rewrite fill_rows_windows; [|done|unfold zeros; rewrite length_replicate; lia].
  rewrite take_0, drop_ge by (unfold zeros; rewrite length_replicate; lia).
  cbn. by rewrite app_nil_r.
Qed.

(** Reshaping *)
Lemma reshape3_ok (a : list nat) d1 d2 :
  d1 * d2 ≠ 0 → length a `mod` (d1 * d2) = 0 →
  ∃ idxs, reshape3 a d1 d2 = Ok idxs
    ∧ length idxs = length a `div` (d1 * d2)
    ∧ ∀ m r, starting_indices_of idxs m r =
        if decide (m < length a `div` (d1 * d2) ∧ r < d1)
        then Some (slice a ((m * d1 + r) * d2) ((m * d1 + r) * d2 + d2)) else None.
Proof.
  intros Hne Hmod. unfold reshape3. rewrite decide_False, decide_True by done.
  eexists; split; [done|]. split; [by rewrite length_fmap, length_seq|].
  intros m r. unfold starting_indices_of.
  rewrite list_lookup_fmap.
  destruct (decide (m < length a `div` (d1 * d2))) as [Hm|Hm].
  - rewrite lookup_seq_lt by done. cbn.
    rewrite list_lookup_fmap.
    destruct (decide (r < d1)) as [Hr|Hr].
    + rewrite lookup_seq_lt by done. by rewrite decide_True.
    + rewrite lookup_seq_ge by lia. by rewrite decide_False by tauto.
  - rewrite lookup_seq_ge by lia. by rewrite decide_False by tauto.
Qed.


Section epoch.
Context (X : list byte) (n_timesteps n_batch mpi_size : nat) (rng : draws).
Hypothesis Hdraws : numpy_draws n_timesteps rng.

Let shuffled :=
  permutation_draw rng
    (arange (randint_draw rng) (length X - (n_timesteps + 1)) n_timesteps).
Let idxs := epoch_indices X n_timesteps n_batch mpi_size rng.

Lemma shuffled_in_bounds : Forall (λ s, s + n_timesteps + 1 < length X) shuffled.
Proof.
  destruct Hdraws as [_ Hperm]. apply Forall_forall. intros s Hs.
  subst shuffled. rewrite Hperm in Hs. apply arange_bounds in Hs. lia.
Qed.

Lemma length_shuffled :
  length shuffled
  = length (arange (randint_draw rng) (length X - (n_timesteps + 1)) n_timesteps).
Proof. destruct Hdraws as [_ Hperm]. subst shuffled. by rewrite Hperm. Qed.

Lemma epoch_indices_in_bounds : Forall (λ s, s + n_timesteps + 1 < length X) idxs.
Proof.
  apply Forall_forall. intros s Hs. subst idxs. unfold epoch_indices in Hs.
  apply subseteq_take in Hs.
  by apply (proj1 (Forall_forall _ _) shuffled_in_bounds).
Qed.

Lemma length_epoch_indices :
  length idxs
  = length shuffled `div` (mpi_size * n_batch) * (mpi_size * n_batch).
Proof.
  subst idxs. unfold epoch_indices. fold shuffled. rewrite length_take.
  pose proof (Nat.Div0.mul_div_le (length shuffled) (mpi_size * n_batch)). lia.
Qed.

Lemma epoch_indices_minibatches :
  mpi_size * n_batch ≠ 0 →
  length idxs `mod` (mpi_size * n_batch) = 0
  ∧ length idxs `div` (mpi_size * n_batch) = length shuffled `div` (mpi_size * n_batch).
Proof.
  intros Hne. rewrite length_epoch_indices. split.
  - by apply Nat.Div0.mod_mul.
  - by apply Nat.div_mul.
Qed.
End epoch.

Lemma row_fits m r s b q len :
  m < q → r < s → s * b * q ≤ len → (m * s + r) * b + b ≤ len.
Proof.
  intros Hm Hr Hlen.
  assert ((m * s + r + 1) * b ≤ (m + 1) * s * b) as H1
    by (apply Nat.mul_le_mono_r; lia).
  assert ((m + 1) * (s * b) ≤ q * (s * b)) as H2
    by (apply Nat.mul_le_mono_r; lia).
  lia.
Qed.

Lemma iter_data_run X n_timesteps n_batch mpi_rank mpi_size rng :
  numpy_draws n_timesteps rng → 0 < n_timesteps → 0 < n_batch → mpi_rank < mpi_size →
  let idxs := epoch_indices X n_timesteps n_batch mpi_size rng in
  iter_data X n_timesteps n_batch mpi_rank mpi_size rng
  = Trace (minibatch X n_timesteps n_batch mpi_rank mpi_size idxs
             <$> seq 0 (length idxs `div` (mpi_size * n_batch))) None.
Proof.
  intros Hdraws Hn Hb Hr idxs. unfold iter_data.
  assert (n_timesteps ≠ 0) by lia.
  assert (mpi_size * n_batch ≠ 0) as Hspb by nia.
  rewrite !decide_False by done. fold idxs.
  destruct (epoch_indices_minibatches X n_timesteps n_batch mpi_size rng Hspb)
    as [Hmod Hdiv]. fold idxs in Hmod, Hdiv.
  destruct (reshape3_ok idxs mpi_size n_batch Hspb Hmod) as (idxs3 & -> & Hlen3 & Hstarts).
  rewrite Hlen3. apply for_yield_ok. intros m Hm. apply elem_of_seq in Hm.
  rewrite Hstarts, decide_True by lia.
  pose proof (Nat.Div0.mul_div_le (length idxs) (mpi_size * n_batch)) as Hle.
  assert ((m * mpi_size + mpi_rank) * n_batch + n_batch ≤ length idxs) as Hfit
    by (eapply row_fits; [| |exact Hle]; lia).
  rewrite fill_rows_enumerate; [done| |rewrite length_slice; lia].
  apply Forall_forall. intros s Hs. apply elem_of_slice in Hs.
  pose proof (epoch_indices_in_bounds X n_timesteps n_batch mpi_size rng Hdraws) as Hin.
  apply (proj1 (Forall_forall _ _) Hin) in Hs. lia.
Qed.

Lemma iter_data_raised X n_timesteps n_batch mpi_rank mpi_size rng :
  numpy_draws n_timesteps rng → mpi_rank < mpi_size →
  raised (iter_data X n_timesteps n_batch mpi_rank mpi_size rng)
  = if decide (n_timesteps = 0) then Some ValueError_randint
    else if decide (n_batch = 0) then Some ZeroDivisionError else None.
Proof.
  intros Hdraws Hr. destruct (decide (n_timesteps = 0)) as [->|Hn].
  { unfold iter_data. by rewrite decide_True. }
  destruct (decide (n_batch = 0)) as [->|Hb].
  - unfold iter_data. rewrite decide_False by done.
    by rewrite decide_True by lia.
  - by rewrite iter_data_run by (done || lia).
Qed.

Lemma iter_data_yielded X n_timesteps n_batch mpi_rank mpi_size rng :
  numpy_draws n_timesteps rng →
  let idxs := epoch_indices X n_timesteps n_batch mpi_size rng in
  yielded (iter_data X n_timesteps n_batch mpi_rank mpi_size rng)
  = if decide (0 < n_timesteps ∧ 0 < n_batch ∧ mpi_rank < mpi_size)
    then minibatch X n_timesteps n_batch mpi_rank mpi_size idxs
           <$> seq 0 (length idxs `div` (mpi_size * n_batch))
    else [].
Proof.
  intros Hdraws idxs.
  destruct (decide (0 < n_timesteps ∧ 0 < n_batch ∧ mpi_rank < mpi_size))
    as [(? & ? & ?)|Hn].
  - by rewrite iter_data_run.
  - unfold iter_data.
    destruct (decide (n_timesteps = 0)) as [|Hts]; [done|].
    destruct (decide (mpi_size * n_batch = 0)) as [|Hspb]; [done|]. fold idxs.
    destruct (epoch_indices_minibatches X n_timesteps n_batch mpi_size rng Hspb)
      as [Hmod _]. fold idxs in Hmod.
    destruct (reshape3_ok idxs mpi_size n_batch Hspb Hmod) as (idxs3 & -> & _ & Hstarts).
    apply (for_yield_raise _ IndexError). intros m _.
    rewrite Hstarts, decide_False; [done|]. nia.
Qed.

Lemma windows_lookup X n_timesteps starting_indices i s_i :
  starting_indices !! i = Some s_i →
  windows X n_timesteps starting_indices !! i = Some (slice X s_i (s_i + n_timesteps + 1)).
Proof. intros H. unfold windows. by rewrite list_lookup_fmap, H. Qed.

Lemma minibatch_shape X n_timesteps starting_indices :
  Forall (λ s, s + n_timesteps + 1 ≤ length X) starting_indices →
  let x := windows X n_timesteps starting_indices in
  has_shape (except_last_column x) (length starting_indices) n_timesteps
  ∧ has_shape (except_first_column x) (length starting_indices) n_timesteps.
Proof.
  intros Hin x. unfold has_shape, except_last_column, except_first_column.
  subst x. unfold windows. rewrite !length_fmap. repeat split.
  - rewrite !Forall_fmap. eapply Forall_impl; [exact Hin|].
    intros s Hs. cbn in *. rewrite length_take, length_slice. lia.
  - rewrite !Forall_fmap. eapply Forall_impl; [exact Hin|].
    intros s Hs. cbn in *. rewrite length_drop, length_slice. lia.
Qed.

Lemma yielded_minibatch X n_timesteps n_batch mpi_rank mpi_size rng m xy :
  numpy_draws n_timesteps rng →
  yielded (iter_data X n_timesteps n_batch mpi_rank mpi_size rng) !! m = Some xy →
  let idxs := epoch_indices X n_timesteps n_batch mpi_size rng in
  let at_ := (m * mpi_size + mpi_rank) * n_batch in
  0 < n_batch ∧ mpi_rank < mpi_size ∧ m < length idxs `div` (mpi_size * n_batch)
  ∧ at_ + n_batch ≤ length idxs
  ∧ Forall (λ s, s + n_timesteps + 1 ≤ length X) (slice idxs at_ (at_ + n_batch))
  ∧ xy = minibatch X n_timesteps n_batch mpi_rank mpi_size idxs m.
Proof.
  intros Hdraws Hm idxs at_. rewrite iter_data_yielded in Hm by done. fold idxs in Hm.
  destruct (decide (0 < n_timesteps ∧ 0 < n_batch ∧ mpi_rank < mpi_size))
    as [(Hn & Hb & Hr)|]; [|done].
  rewrite list_lookup_fmap in Hm.
  destruct (seq 0 _ !! m) as [m'|] eqn:Hseq; [|done].
  apply lookup_seq in Hseq as [-> Hlt]. cbn in Hm. simplify_eq.
  pose proof (Nat.Div0.mul_div_le (length idxs) (mpi_size * n_batch)) as Hle.
  assert (at_ + n_batch ≤ length idxs)
    by (subst at_; eapply row_fits; [| |exact Hle]; lia).
  repeat split; try done.
  apply Forall_forall. intros s Hs. apply elem_of_slice in Hs.
  pose proof (epoch_indices_in_bounds X n_timesteps n_batch mpi_size rng Hdraws) as Hin.
  apply (proj1 (Forall_forall _ _) Hin) in Hs. lia.
Qed.

Example iter_data_on_twelve_bytes :
  iter_data X12 2 1 0 2 reversing
  = Trace [([[x07; x08]], [[x08; x09]]); ([[x03; x04]], [[x04; x05]])] None.
Proof. reflexivity. Qed.

Example iter_data_rank_out_of_range :
  iter_data X12 2 1 2 2 reversing = Trace [] (Some IndexError).
Proof. reflexivity. Qed.

Example iter_data_empty_batch :
  iter_data X12 2 0 0 2 reversing = Trace [] (Some ZeroDivisionError).
Proof. reflexivity. Qed.

(** C2: for an array longer than [n_timesteps + 1] and draws that numpy
    can make, every pair [(x, y)] that [iter_data] yields has, in row [i]
    with starting index [s_i] and at every timestep [t < n_timesteps], the
    byte [X[s_i + t]] in [x] and the byte [X[s_i + t + 1]], the one that
    follows it, in [y]. *)
Theorem next_byte_targets X n_timesteps n_batch mpi_rank mpi_size rng :
  n_timesteps + 1 < length X →
  numpy_draws n_timesteps rng →
  ∀ minibatch_index x y,
    yielded (iter_data X n_timesteps n_batch mpi_rank mpi_size rng) !! minibatch_index
      = Some (x, y) →
    ∃ idxs starting_indices,
      reshape3 (epoch_indices X n_timesteps n_batch mpi_size rng) mpi_size n_batch = Ok idxs
      ∧ starting_indices_of idxs minibatch_index mpi_rank = Some starting_indices
      ∧ length starting_indices = n_batch
      ∧ ∀ i s_i t, starting_indices !! i = Some s_i → t < n_timesteps →
          ∃ b b', X !! (s_i + t) = Some b ∧ X !! (s_i + t + 1) = Some b'
                  ∧ x !! i ≫= (.!! t) = Some b ∧ y !! i ≫= (.!! t) = Some b'.
Proof.
  intros _ Hdraws m x y Hm.
  apply yielded_minibatch in Hm as (Hb & Hr & Hlt & Hfit & Hin & Hxy); [|done].
  set (idxs := epoch_indices X n_timesteps n_batch mpi_size rng) in *.
  assert (mpi_size * n_batch ≠ 0) as Hspb by nia.
  destruct (epoch_indices_minibatches X n_timesteps n_batch mpi_size rng Hspb)
    as [Hmod _]. fold idxs in Hmod.
  destruct (reshape3_ok idxs mpi_size n_batch Hspb Hmod) as (idxs3 & Hre & _ & Hstarts).
  eexists idxs3, _. split; [done|]. split.
  { rewrite Hstarts. by rewrite decide_True. }
  split; [rewrite length_slice; lia|].
  intros i s_i t Hi Ht.
  pose proof (Forall_lookup_1 _ _ _ _ Hin Hi) as Hs. cbn in Hs.
  destruct (lookup_lt_is_Some_2 X (s_i + t)) as [b Hb0]; [lia|].
  destruct (lookup_lt_is_Some_2 X (s_i + t + 1)) as [b' Hb1]; [lia|].
  exists b, b'. split; [done|]. split; [done|].
  unfold minibatch in Hxy. simplify_eq.
  unfold except_last_column, except_first_column.
  rewrite !list_lookup_fmap, (windows_lookup _ _ _ _ _ Hi). cbn. split.
  - rewrite lookup_take_lt by (rewrite length_slice; lia).
    rewrite lookup_slice by lia. done.
  - rewrite lookup_drop, lookup_slice by lia. rewrite <- Hb1. f_equal. lia.
Qed.

Lemma reversing_numpy_draws : numpy_draws 2 reversing.
Proof. split; [cbn; lia|]. intros l. cbn. symmetry. apply Permutation_rev. Qed.

Lemma next_byte_targets_witness :
  ∃ idxs starting_indices,
    reshape3 (epoch_indices X12 2 1 2 reversing) 2 1 = Ok idxs
    ∧ starting_indices_of idxs 0 0 = Some starting_indices
    ∧ length starting_indices = 1
    ∧ ∀ i s_i t, starting_indices !! i = Some s_i → t < 2 →
        ∃ b b', X12 !! (s_i + t) = Some b ∧ X12 !! (s_i + t + 1) = Some b'
                ∧ [[x07; x08]] !! i ≫= (.!! t) = Some b
                ∧ [[x08; x09]] !! i ≫= (.!! t) = Some b'.
Proof.
  apply (next_byte_targets X12 2 1 0 2 reversing).
  - cbn. lia.
  - exact reversing_numpy_draws.
  - reflexivity.
Defined.

(** C9: for an array longer than [n_timesteps + 1] and a rank below
    [mpi_size], every chosen starting index leaves room for
    [n_timesteps + 1] bytes, so its slice has that many elements and is
    stored as it is; the store into the buffer never raises, and both
    components of every yielded pair have shape [(n_batch, n_timesteps)].
    With a positive [n_batch] nothing raises at all. *)
Theorem slices_in_bounds X n_timesteps n_batch mpi_rank mpi_size rng :
  n_timesteps + 1 < length X → mpi_rank < mpi_size → numpy_draws n_timesteps rng →
  let run := iter_data X n_timesteps n_batch mpi_rank mpi_size rng in
  let chosen := permutation_draw rng
      (arange (randint_draw rng) (length X - (n_timesteps + 1)) n_timesteps) in
  Forall (λ start_idx,
      let v := slice X start_idx (start_idx + n_timesteps + 1) in
      start_idx + n_timesteps + 1 ≤ length X
      ∧ length v = n_timesteps + 1
      ∧ broadcast_row (n_timesteps + 1) v = Ok v) chosen
  ∧ raised run ≠ Some ValueError_broadcast
  ∧ Forall (λ xy, has_shape xy.1 n_batch n_timesteps ∧ has_shape xy.2 n_batch n_timesteps)
           (yielded run)
  ∧ (0 < n_timesteps → 0 < n_batch →
       raised run = None
       ∧ length (yielded run) = length chosen `div` (mpi_size * n_batch)).
Proof.
  intros _ Hr Hdraws run chosen. split; [|split; [|split]].
  - eapply Forall_impl; [exact (shuffled_in_bounds X n_timesteps rng Hdraws)|].
    intros s Hs. cbn in *.
    assert (length (slice X s (s + n_timesteps + 1)) = n_timesteps + 1) as Hlen
      by (rewrite length_slice; lia).
    split; [lia|]. split; [done|]. by apply broadcast_row_full.
  - subst run. rewrite iter_data_raised by done. by repeat case_decide.
  - apply Forall_lookup. intros m [x y] Hm.
    apply yielded_minibatch in Hm as (_ & _ & _ & Hfit & Hin & Hxy); [|done].
    unfold minibatch in Hxy. simplify_eq. cbn [fst snd].
    apply minibatch_shape in Hin. rewrite length_slice in Hin.
    rewrite Nat.min_l in Hin by lia.
    by replace ((m * mpi_size + mpi_rank) * n_batch + n_batch
                - (m * mpi_size + mpi_rank) * n_batch) with n_batch in Hin by lia.
  - intros Hn Hb. subst run. rewrite iter_data_run by done. cbn [raised yielded].
    split; [done|]. rewrite length_fmap, length_seq.
    assert (mpi_size * n_batch ≠ 0) as Hspb by nia.
    by destruct (epoch_indices_minibatches X n_timesteps n_batch mpi_size rng Hspb).
Qed.

Lemma slices_in_bounds_witness :
  let run := iter_data X12 2 1 0 2 reversing in
  raised run = None ∧ length (yielded run) = 2.
Proof.
  assert (2 + 1 < length X12) as HX by (cbn; lia).
  assert (0 < 2) as Hr by lia.
  destruct (slices_in_bounds X12 2 1 0 2 reversing HX Hr reversing_numpy_draws)
    as (_ & _ & _ & Hrun).
  apply Hrun; lia.
Defined.

(** C7: two ranks below [mpi_size] that run [iter_data] on the same array
    with the same draws yield the same number of minibatches, which is
    [idxs.size // (mpi_size * n_batch)], end the same way, and yield batches
    of the same shape; the batches differ in the row of starting indices
    they are cut at. *)
Theorem ranks_step_together X n_timesteps n_batch mpi_size rng rank1 rank2 :
  rank1 < mpi_size → rank2 < mpi_size → numpy_draws n_timesteps rng →
  let run1 := iter_data X n_timesteps n_batch rank1 mpi_size rng in
  let run2 := iter_data X n_timesteps n_batch rank2 mpi_size rng in
  let idxs := permutation_draw rng
      (arange (randint_draw rng) (length X - (n_timesteps + 1)) n_timesteps) in
  length (yielded run1) = length (yielded run2)
  ∧ raised run1 = raised run2
  ∧ (0 < n_timesteps → 0 < n_batch →
       length (yielded run1) = length idxs `div` (mpi_size * n_batch))
  ∧ ∀ m x1 y1 x2 y2,
      yielded run1 !! m = Some (x1, y1) → yielded run2 !! m = Some (x2, y2) →
      has_shape x1 n_batch n_timesteps ∧ has_shape x2 n_batch n_timesteps
      ∧ has_shape y1 n_batch n_timesteps ∧ has_shape y2 n_batch n_timesteps
      ∧ (x1, y1) = minibatch X n_timesteps n_batch rank1 mpi_size
                     (epoch_indices X n_timesteps n_batch mpi_size rng) m
      ∧ (x2, y2) = minibatch X n_timesteps n_batch rank2 mpi_size
                     (epoch_indices X n_timesteps n_batch mpi_size rng) m.
Proof.
  intros Hr1 Hr2 Hdraws run1 run2 idxs.
  assert (∀ r : nat, r < mpi_size →
    ∀ m x y, yielded (iter_data X n_timesteps n_batch r mpi_size rng) !! m = Some (x, y) →
      has_shape x n_batch n_timesteps ∧ has_shape y n_batch n_timesteps
      ∧ (x, y) = minibatch X n_timesteps n_batch r mpi_size
                   (epoch_indices X n_timesteps n_batch mpi_size rng) m) as Hshape.
  { intros r Hr m x y Hm.
    apply yielded_minibatch in Hm as (_ & _ & _ & Hfit & Hin & Hxy); [|done].
    split; [|split; [|done]]; unfold minibatch in Hxy; simplify_eq;
      apply minibatch_shape in Hin; rewrite length_slice, Nat.min_l in Hin by lia;
      replace ((m * mpi_size + r) * n_batch + n_batch - (m * mpi_size + r) * n_batch)
        with n_batch in Hin by lia; apply Hin. }
  split; [|split; [|split]].
  - subst run1 run2. rewrite !iter_data_yielded by done.
    destruct (decide (0 < n_timesteps ∧ 0 < n_batch)) as [[??]|].
    + rewrite !decide_True by done. by rewrite !length_fmap.
    + by rewrite !decide_False by tauto.
  - subst run1 run2. by rewrite !iter_data_raised.
  - intros Hn Hb. subst run1. rewrite iter_data_run by done. cbn [yielded].
    rewrite length_fmap, length_seq.
    assert (mpi_size * n_batch ≠ 0) as Hspb by nia.
    by destruct (epoch_indices_minibatches X n_timesteps n_batch mpi_size rng Hspb).
  - intros m x1 y1 x2 y2 H1 H2.
    destruct (Hshape rank1 Hr1 m x1 y1 H1) as (? & ? & ?).
    destruct (Hshape rank2 Hr2 m x2 y2 H2) as (? & ? & ?). done.
Qed.

Lemma ranks_step_together_witness :
  length (yielded (iter_data X12 2 1 0 2 reversing))
  = length (yielded (iter_data X12 2 1 1 2 reversing)).
Proof.
  assert (0 < 2) as H0 by lia. assert (1 < 2) as H1 by lia.
  exact (proj1 (ranks_step_together X12 2 1 2 reversing 0 1 H0 H1 reversing_numpy_draws)).
Defined.

(** ** Reading the file *)

Lemma read_text_plain n contents :
  forallb plain contents = true → read_text n contents = Ok (take n contents).
Proof.
  revert n. induction contents as [|b0 r0 IH]; intros n Hplain.
  - by destruct n.
  - destruct n as [|n]; [done|].
    cbn [forallb] in Hplain. apply andb_prop in Hplain as [Hb0 Hr0].
    unfold plain in Hb0. apply andb_prop in Hb0 as [Hascii Hcr].
    apply negb_true_iff in Hcr.
    cbn [read_text]. rewrite Hascii, Hcr, IH by done. done.
Qed.

Lemma slice_take {A} (X : list A) N a b :
  b ≤ N → slice (take N X) a b = slice X a b.
Proof.
  intros Hb. unfold slice. apply list_eq. intros i.
  destruct (decide (i < b - a)).
  - rewrite !lookup_take_lt, !lookup_drop by done. by rewrite lookup_take_lt by lia.
  - by rewrite !lookup_take_ge by lia.
Qed.

(** On a file of plain bytes (ASCII, no carriage return) [enwik8] does
    return the three byte segments. *)
Lemma enwik8_plain contents n_train n_valid n_test :
  forallb plain contents = true →
  n_train + n_valid + n_test ≤ length contents →
  enwik8 contents n_train n_valid n_test
  = Ok (byte_segments contents n_train n_valid n_test).
Proof.
  intros Hplain Hlen. unfold enwik8. rewrite read_text_plain by done.
  cbn [mbind result_bind]. f_equal. unfold split3, byte_segments.
  rewrite length_take_le by done. by rewrite !slice_take by lia.
Qed.

(** C6 at a file that starts with a carriage return and a line feed: the
    text-mode read hands back one line feed for the two bytes, so the
    training segment is not the first byte of the file and the test segment
    is not its second. *)
Lemma enwik8_newline_translation :
  let contents := [x0d; x0a; x61; x62] in
  1 + 0 + 1 ≤ length contents
  ∧ enwik8 contents 1 0 1 = Ok ([x0a], [], [x61])
  ∧ byte_segments contents 1 0 1 = ([x0d], [], [x0a])
  ∧ enwik8 contents 1 0 1 ≠ Ok (byte_segments contents 1 0 1).
Proof. cbn. repeat split; [lia|]. discriminate. Qed.

Lemma enwik8_multibyte :
  let contents := [xc3; xa9; x61; x62] in
  enwik8 contents 1 0 1 = Ok ([xc3], [], [xa9; x61])
  ∧ byte_segments contents 1 0 1 = ([xc3], [], [xa9]).
Proof. by cbn. Qed.

(** ** Loss scaling *)

Import Scaling.

Section rule.
Context {F : Type} `{Number F}.


End rule.



Example step_halves_a_float :
  step (Hparams 65536%float 2000) 0%float (State 65536%float 5)
  = State 32768%float 0.
Proof. reflexivity. Qed.

Example step_doubles_a_float :
  step (Hparams 65536%float 2000) 1%float (State 65536%float 2000)
  = State 131072%float 0.
Proof. reflexivity. Qed.

Example step_counts :
  step (Hparams 65536%float 2000) 1%float (State 65536%float 5)
  = State 65536%float 6.
Proof. reflexivity. Qed.




(** ** The graph *)

Import Tf Model.

Section builder_logic.
Context {A B : Type}.

Lemma creates_ret (a : A) g (P : A → Prop) : P a → creates (mret a) g [] P.
Proof.
  intros HP. exists a, []. rewrite app_nil_r. by destruct g.
Qed.

Lemma creates_bind (m : build A) (f : A → build B) g ps1 ps2 P Q :
  creates m g ps1 P →
  (∀ a g', P a → scope g' = scope g → creates (f a) g' ps2 Q) →
  creates (m ≫= f) g (ps1 ++ ps2) Q.
Proof.
  intros (a & vs1 & Hm & Hvs1 & HP) Hf.
  destruct (Hf a (Graph (scope g) (trainable_variables g ++ vs1)) HP eq_refl)
    as (b & vs2 & Hfa & Hvs2 & HQ).
  exists b, (vs1 ++ vs2). unfold mbind, build_bind. rewrite Hm, Hfa.
  cbn [scope trainable_variables] in *.
  by rewrite app_assoc, !fmap_app, Hvs1, Hvs2.
Qed.

Lemma creates_variable_scope name (body : build A) g ps P :
  creates body (Graph (scope g ++ [name]) (trainable_variables g)) ps P →
  creates (variable_scope name body) g ((λ p, name :: p) <$> ps) P.
Proof.
  intros (a & vs & Hm & Hvs & HP). exists a, vs. unfold variable_scope.
  rewrite Hm. cbn [scope trainable_variables] in *. split; [done|]. split; [|done].
  rewrite Hvs, <- list_fmap_compose. apply list_fmap_ext. intros _ p _. cbn.
  by rewrite <- app_assoc.
Qed.

Lemma creates_weaken (m : build A) g ps (P Q : A → Prop) :
  creates m g ps P → (∀ a, P a → Q a) → creates m g ps Q.
Proof. intros (a & vs & ? & ? & ?) HPQ. exists a, vs. auto. Qed.
End builder_logic.

Lemma creates_get_variable name shape init g :
  creates (get_variable name shape init) g [[name]]
    (λ v, v = Var (scope g ++ [name]) shape init true).
Proof. eexists _, [_]. by repeat split. Qed.

Lemma creates_truediv a b g :
  ¬ (b == 0)%Q → creates (truediv a b) g [] (λ q, q = (a / b)%Q).
Proof.
  intros Hb. unfold truediv.
  destruct (Qeq_bool b 0) eqn:E; [by apply Qeq_bool_iff in E|].
  by apply creates_ret.
Qed.

Lemma of_nat_nonzero n : n ≠ 0 → ¬ (of_nat n == 0)%Q.
Proof.
  intros Hn. unfold of_nat, Qeq. cbn. lia.
Qed.

Lemma creates_paths {A} (m : build A) g ps ps' P :
  creates m g ps P → ps = ps' → creates m g ps' P.
Proof. by intros ? <-. Qed.

(** One step of a builder: the first action, then the rest. *)
Ltac bind_with lem :=
  eapply creates_bind; [eapply lem|]; cbv beta;
  let a := fresh "a" in let g' := fresh "g" in
  let Ha := fresh "Ha" in let Hg := fresh "Hg" in
  intros a g' Ha Hg.

Lemma creates_conv1d x sc nf relu g :
  creates (conv1d x sc nf relu) g [[sc; "w"]; [sc; "b"]]%string (Run.same_allreduce x).
Proof.
  eapply creates_paths.
  - unfold conv1d. apply creates_variable_scope. cbv zeta.
    bind_with creates_get_variable. bind_with creates_get_variable.
    apply creates_ret. subst. unfold Run.same_allreduce.
    repeat case_decide; cbn; by rewrite !orb_false_r.
  - reflexivity.
Qed.

Lemma creates_layernorm x sc epsilon relu g :
  creates (layernorm x sc epsilon relu) g [[sc; "gain"]; [sc; "bias"]]%string
    (Run.same_allreduce x).
Proof.
  eapply creates_paths.
  - unfold layernorm. apply creates_variable_scope.
    bind_with creates_get_variable. bind_with creates_get_variable.
    apply creates_ret. subst. unfold Run.same_allreduce. cbn. by rewrite !orb_false_r.
  - reflexivity.
Qed.

Lemma creates_attention x sc n_head n_timesteps g :
  n_head ≠ 0 →
  creates (attention x sc n_head n_timesteps) g
    [[sc; "q"; "w"]; [sc; "q"; "b"]; [sc; "k"; "w"]; [sc; "k"; "b"];
     [sc; "v"; "w"]; [sc; "v"; "b"]; [sc; "proj"; "w"]; [sc; "proj"; "b"]]%string
    (Run.same_allreduce x).
Proof.
  intros Hhead. eapply creates_paths.
  - unfold attention. apply creates_variable_scope.
    bind_with creates_conv1d. bind_with creates_conv1d. bind_with creates_conv1d.
    cbv zeta. eapply creates_bind.
    { apply creates_truediv. by apply of_nat_nonzero. }
    cbv beta. intros scale g3 -> Hg3.
    eapply creates_weaken; [apply creates_conv1d|].
    intros y Hy. unfold Run.same_allreduce in *. rewrite Hy. cbn.
    rewrite Ha, Ha0, Ha1. by destruct (Run.has_allreduce x).
  - reflexivity.
Qed.

Lemma creates_mlp x sc g :
  creates (mlp x sc) g
    [[sc; "hidden"; "w"]; [sc; "hidden"; "b"];
     [sc; "residual"; "w"]; [sc; "residual"; "b"]]%string
    (Run.same_allreduce x).
Proof.
  eapply creates_paths.
  - unfold mlp. cbv zeta. apply creates_variable_scope.
    bind_with creates_conv1d. bind_with creates_conv1d.
    apply creates_ret. unfold Run.same_allreduce in *. cbn.
    rewrite Ha0, Ha. by destruct (Run.has_allreduce x).
  - reflexivity.
Qed.

Lemma creates_transformer_block x sc n_head n_timesteps g :
  n_head ≠ 0 →
  creates (transformer_block x sc n_head n_timesteps) g
    ((λ p, sc :: p) <$> block_paths) (Run.same_allreduce x).
Proof.
  intros Hhead. eapply creates_paths.
  - unfold transformer_block. apply creates_variable_scope.
    eapply creates_bind; [by apply creates_attention|]. cbv beta. intros a g1 Ha Hg1.
    bind_with creates_layernorm. bind_with creates_mlp.
    eapply creates_weaken; [apply creates_layernorm|].
    intros y Hy. unfold Run.same_allreduce in *. rewrite Hy. cbn.
    rewrite Ha1, Ha0. cbn. rewrite Ha. by destruct (Run.has_allreduce x).
  - reflexivity.
Qed.

Lemma creates_layers hps h grad_groups range g :
  range = [] ∨ Hps.n_head hps ≠ 0 →
  creates (layers hps h grad_groups range) g
    (l ← range; (λ p, layer_name l :: p) <$> block_paths)
    (λ r, Run.same_allreduce h r.1 ∧ r.2 = reverse (layer_name <$> range) ++ grad_groups).
Proof.
  intros Hok. revert h grad_groups g.
  induction range as [|l range IH]; intros h grad_groups g.
  - apply creates_ret. by split.
  - destruct Hok as [|Hhead]; [done|]. cbn [layers]. cbv zeta.
    change (l0 ← l :: range; (λ p, layer_name l0 :: p) <$> block_paths)
      with (((λ p, layer_name l :: p) <$> block_paths)
            ++ (l0 ← range; (λ p, layer_name l0 :: p) <$> block_paths)).
    eapply creates_bind; [by apply creates_transformer_block|].
    cbv beta. intros h1 g1 Hh1 Hg1.
    eapply creates_weaken; [apply IH; by right|].
    intros [h2 groups] [Hh2 Hgroups]. cbn [fst snd] in *. split.
    + unfold Run.same_allreduce in *. congruence.
    + rewrite Hgroups. rewrite fmap_cons, reverse_cons, <- app_assoc. done.
Qed.

Lemma Qeq_bool_false (x y : Q) : ¬ (x == y)%Q → Qeq_bool x y = false.
Proof.
  intros Hne. destruct (Qeq_bool x y) eqn:E; [|done].
  by apply Qeq_bool_iff in E.
Qed.

Lemma main_graph_run hps mpi_size mpi_rank :
  Hps.warmup_iters hps ≠ 0 → Hps.n_layer hps = 0 ∨ Hps.n_head hps ≠ 0 →
  ∃ h vs,
    layers hps (embedded_input hps) ["embed"] (seq 0 (Hps.n_layer hps))
      (Graph ["model"] [x_variable hps; pos_variable hps])
    = Ok ((h, reverse (layer_name <$> seq 0 (Hps.n_layer hps)) ++ ["embed"]),
          Graph ["model"] ([x_variable hps; pos_variable hps] ++ vs))
    ∧ var_path <$> vs
      = (l ← seq 0 (Hps.n_layer hps); (λ p, "model" :: layer_name l :: p) <$> block_paths)
    ∧ Run.has_allreduce h = false
    ∧ main_graph hps mpi_size mpi_rank
      = Ok (assemble hps mpi_size mpi_rank (Y_placeholder hps) cost_scale_placeholder
              (grad_scale_of cost_scale_placeholder mpi_size)
              global_step_variable (learning_rate_of hps)
              (fp16 (x_variable hps))
              (MatMul (Reshape h [(-1)%Z; Z.of_nat (Hps.n_state hps)])
                      (fp16 (x_variable hps)) true)
              (reverse (layer_name <$> seq 0 (Hps.n_layer hps)) ++ ["embed"])
              ([x_variable hps; pos_variable hps] ++ vs)).
Proof.
  intros Hwarm Hok.
  destruct (creates_layers hps (embedded_input hps) ["embed"] (seq 0 (Hps.n_layer hps))
              (Graph ["model"] [x_variable hps; pos_variable hps]))
    as ([h groups] & vs & Hlayers & Hvs & Hh & Hgroups).
  { destruct Hok as [->|]; [by left|by right]. }
  cbn [fst snd scope trainable_variables] in *. subst groups.
  exists h, vs. split; [exact Hlayers|]. split.
  { rewrite Hvs. clear. induction (seq 0 (Hps.n_layer hps)) as [|l ls IH]; [done|].
    cbn [mbind list_bind]. rewrite fmap_app, IH.
    by rewrite <- list_fmap_compose. }
  split; [exact Hh|].
  unfold main_graph, model, variable_scope.
  unfold mbind at 1, build_bind at 1. unfold untrained_variable.
  cbn [scope trainable_variables app].
  unfold mbind at 1, build_bind at 1. unfold truediv.
  rewrite (Qeq_bool_false _ _ (of_nat_nonzero _ Hwarm)).
  unfold mret at 1, build_ret at 1.
  unfold mbind at 1, build_bind at 1.
  change (embed hps (X_placeholder hps) (Graph ["model"] []))
    with (Ok ((fp16 (x_variable hps), embedded_input hps),
              Graph ["model"] [x_variable hps; pos_variable hps]) : result _).
  cbv zeta. unfold mbind at 1, build_bind at 1. rewrite Hlayers.
  reflexivity.
Qed.

Lemma append_cons c (s t : string) : (String c s +:+ t = String c (s +:+ t))%string.
Proof. reflexivity. Qed.



Lemma split_grads_filter gps fact adam :
  split_grads gps fact adam
  = (fact ++ filter (λ gp, ¬ for_adam gp) gps, adam ++ filter for_adam gps).
Proof.
  revert fact adam. induction gps as [|[grad param] gps IH]; intros fact adam.
  - cbn. by rewrite !app_nil_r.
  - cbn [split_grads]. rewrite !filter_cons.
    destruct (contains "embed" (op_name param)) eqn:E.
    + assert (for_adam (grad, param)) as Hadam by exact E.
      rewrite IH. rewrite decide_False by (intros Hn; by apply Hn).
      rewrite decide_True by done. by rewrite <- app_assoc.
    + assert (¬ for_adam (grad, param)) as Hfact
        by (unfold for_adam; cbn [snd]; congruence).
      rewrite IH. rewrite decide_True by done.
      rewrite decide_False by done. by rewrite <- app_assoc.
Qed.

Lemma length_final_grads hps mpi_size mpi_rank ys cs gs gstep lr xe lg groups ps :
  length (grads (assemble hps mpi_size mpi_rank ys cs gs gstep lr xe lg groups ps))
  = length ps.
Proof.
  unfold assemble. rewrite split_grads_filter. cbn [grads].
  unfold group_allreduce, log_all_stats.
  repeat case_decide;
    rewrite ?length_zip_with, ?length_fmap; lia.
Qed.


Example adam_gets_the_embeddings :
  match main_graph Hps.tiny 1 0 with
  | Ok out => (λ gp, op_name gp.2) <$> adam_grads out
  | Raise _ => []
  end = ["model/embed/x"; "model/embed/pos"].
Proof. vm_compute. reflexivity. Qed.

Example adafactor_gets_the_layers :
  match main_graph Hps.tiny 1 0 with
  | Ok out => length (fact_grads out)
  | Raise _ => 0
  end = 2 * 16.
Proof. vm_compute. reflexivity. Qed.



(** *** The reported loss *)

Lemma allreduce_scale (c : Q) (l : list Q) :
  (Run.allreduce ((λ g, c * g) <$> l) == c * Run.allreduce l)%Q.
Proof.
  unfold Run.allreduce. induction l as [|g l IH]; cbn.
  - by rewrite Qmult_0_r.
  - rewrite IH. by rewrite Qmult_plus_distr_r.
Qed.

(** The float32 constant of [1.0 / 2^k] is [1 / 2^k]. *)
Lemma reciprocal_of_power_of_two (k : nat) :
  k ≤ 30 → (rational_of (float32_of (reciprocal (2 ^ k))) == 1 / of_nat (2 ^ k))%Q.
Proof.
  intros Hk. unfold reciprocal, of_nat. rewrite Nat2Z.inj_pow.
  change (Z.of_nat 2) with 2%Z.
  assert (forallb (λ k,
            Qeq_bool
              (rational_of (float32_of
                 (SFdiv 53 1024 (SFone 53 1024) (binary64_of_int (2 ^ Z.of_nat k)))))
              (1 / inject_Z (2 ^ Z.of_nat k)))
            (seq 0 31) = true) as Hall by (vm_compute; reflexivity).
  rewrite forallb_forall in Hall. apply Qeq_bool_eq, Hall, in_seq. lia.
Qed.

Lemma divisor_of_power_of_two (n : nat) (d : Z) :
  (0 < d)%Z → (d | 2 ^ Z.of_nat n)%Z → ∃ j : nat, d = (2 ^ Z.of_nat j)%Z.
Proof.
  revert d. induction n as [|n IH]; intros d Hd Hdiv.
  - exists 0. apply Z.divide_1_r_nonneg in Hdiv; [done|lia].
  - rewrite Nat2Z.inj_succ, Z.pow_succ_r in Hdiv by lia.
    destruct (Z.even d) eqn:Heven.
    + apply Z.even_spec in Heven as [d' ->].
      apply Z.mul_divide_cancel_l in Hdiv; [|done].
      destruct (IH d') as [j ->]; [lia|done|].
      exists (S j). by rewrite Nat2Z.inj_succ, Z.pow_succ_r by lia.
    + apply (IH d Hd). apply (Z.gauss d 2); [done|].
      pose proof (Z.gcd_divide_l d 2) as Hl.
      pose proof (Z.gcd_divide_r d 2) as Hr.
      pose proof (Z.gcd_nonneg d 2) as Hnn.
      apply Z.divide_pos_le in Hr as Hle; [|done].
      assert (Z.gcd d 2 ≠ 0)%Z as Hnz by (intros H0; apply Z.gcd_eq_0_r in H0; done).
      assert (Z.gcd d 2 = 1 ∨ Z.gcd d 2 = 2)%Z as [H1|H2] by lia; [done|].
      rewrite H2 in Hl. destruct Hl as [q ->].
      rewrite Z.even_mul in Heven. cbn in Heven. by rewrite orb_true_r in Heven.
Qed.

(** A float is the reciprocal of powers of two only. *)
Lemma exact_reciprocal_of_power_of_two (x : spec_float) (n : nat) :
  n ≠ 0 → (rational_of x == 1 / of_nat n)%Q → ∃ j, n = 2 ^ j.
Proof.
  intros Hn Hx.
  assert (0 < of_nat n)%Q as Hpos by (unfold of_nat, Qlt; cbn; lia).
  assert (0 < 1 / of_nat n)%Q as Hrec.
  { apply Qlt_shift_div_l; [done|]. by rewrite Qmult_0_l. }
  destruct x as [sign|sign| |sign m e]; cbn [rational_of] in Hx;
    try (rewrite <- Hx in Hrec; by apply Qlt_irrefl in Hrec).
  assert (0 < inject_Z (Z.pos m) * 2 ^ e)%Q as Hme.
  { apply Qmult_lt_0_compat; [done|]. by apply Qpower_0_lt. }
  assert (inject_Z (Z.pos m) * 2 ^ e * of_nat n == 1)%Q as Hone.
  { destruct sign.
    - exfalso. apply (Qlt_irrefl 0). eapply Qlt_trans; [exact Hrec|].
      rewrite <- Hx.
      assert (-1 * inject_Z (Z.pos m) * 2 ^ e == - (inject_Z (Z.pos m) * 2 ^ e))%Q
        as -> by ring.
      change 0%Q with (- 0)%Q. by apply Qopp_lt_compat.
    - rewrite <- Qmult_assoc, Qmult_1_l in Hx. rewrite Hx. field.
      intros H0. rewrite H0 in Hpos. by apply Qlt_irrefl in Hpos. }
  destruct e as [|e|e].
  - exists 0. cbn in Hone. rewrite Qmult_1_r in Hone.
    unfold of_nat in Hone. rewrite <- inject_Z_mult in Hone.
    apply (proj1 (inject_Z_injective _ 1)) in Hone.
    apply Z.eq_mul_1_nonneg in Hone as [_ Hone]; [|lia]. cbn. lia.
  - exists 0. rewrite <- (Zpower_Qpower 2 (Z.pos e)) in Hone by lia.
    unfold of_nat in Hone. rewrite <- !inject_Z_mult in Hone.
    apply (proj1 (inject_Z_injective _ 1)) in Hone.
    assert (0 < 2 ^ Z.pos e)%Z by (apply Z.pow_pos_nonneg; lia).
    apply Z.eq_mul_1_nonneg in Hone as [_ Hone]; [|apply Z.mul_nonneg_nonneg; lia].
    cbn. lia.
  - assert (inject_Z (Z.pos m) * of_nat n == 2 ^ Z.pos e)%Q as Hpow.
    { change (2 ^ Z.neg e)%Q with (/ 2 ^ Z.pos e)%Q in Hone.
      assert (¬ (2 ^ Z.pos e == 0)%Q) as Hnz.
      { intros H0. pose proof (Qpower_0_lt 2 (Z.pos e) ltac:(done)) as Hlt.
        rewrite H0 in Hlt. by apply Qlt_irrefl in Hlt. }
      rewrite <- (Qmult_1_l (2 ^ Z.pos e)), <- Hone. field. exact Hnz. }
    rewrite <- (Zpower_Qpower 2 (Z.pos e)) in Hpow by lia.
    unfold of_nat in Hpow. rewrite <- inject_Z_mult in Hpow.
    apply (proj1 (inject_Z_injective _ _)) in Hpow.
    destruct (divisor_of_power_of_two (Pos.to_nat e) (Z.of_nat n)) as [j Hj]; [lia| |].
    { rewrite positive_nat_Z. exists (Z.pos m). by rewrite <- Hpow. }
    exists j. apply Nat2Z.inj. by rewrite Nat2Z.inj_pow.
Qed.

(** C8, amended: under [mpi_size > 1] the loss that [model] returns is
    the all-reduce of the local loss times the float32 constant of
    [1.0 / mpi_size], so that its value, when the all-reduce sums and the
    product is exact, is the sum of the per-process losses times that
    constant.  The constant is [1 / mpi_size] for the powers of two up to
    [2^30], where the value is the arithmetic mean of the per-process
    losses, and for no [mpi_size] that is not a power of two.  Under
    [mpi_size = 1] the loss is the local loss itself, with no all-reduce in
    it. *)
Theorem reported_loss_is_mean hps mpi_size mpi_rank :
  Hps.warmup_iters hps ≠ 0 → Hps.n_layer hps = 0 ∨ Hps.n_head hps ≠ 0 →
  ∃ out, main_graph hps mpi_size mpi_rank = Ok out
    ∧ Run.has_allreduce (local_loss out) = false
    ∧ (1 < mpi_size →
         let c := rational_of (float32_of (reciprocal mpi_size)) in
         loss out = Mul (Allreduce (local_loss out)) (Constant c)
         ∧ (∀ local rank,
              Run.value mpi_size local rank (loss out)
              == Run.allreduce ((λ p, local p (local_loss out)) <$> seq 0 mpi_size) * c)%Q
         ∧ (∀ k, k ≤ 30 → mpi_size = 2 ^ k →
              (c == 1 / of_nat mpi_size)%Q
              ∧ ∀ local rank,
                  (Run.value mpi_size local rank (loss out)
                   == Run.mean ((λ p, local p (local_loss out)) <$> seq 0 mpi_size))%Q)
         ∧ ((c == 1 / of_nat mpi_size)%Q → ∃ k, mpi_size = 2 ^ k))
    ∧ (mpi_size = 1 →
         loss out = local_loss out
         ∧ Run.has_allreduce (loss out) = false
         ∧ ∀ local rank, Run.value 1 local rank (loss out) = local rank (local_loss out)).
Proof.
  intros Hwarm Hok.
  destruct (main_graph_run hps mpi_size mpi_rank Hwarm Hok) as (h & vs & _ & _ & Hh & Hrun).
  eexists. split; [exact Hrun|].
  unfold assemble. rewrite split_grads_filter. cbn [loss local_loss].
  assert (Run.has_allreduce
            (ReduceMean (SoftmaxCrossEntropy
               (MatMul (Reshape h [(-1)%Z; Z.of_nat (Hps.n_state hps)])
                  (fp16 (x_variable hps)) true) (Y_placeholder hps))) = false) as Hlocal
    by (cbn; by rewrite Hh).
  split; [exact Hlocal|]. split.
  - intros Hsize. rewrite decide_True by done.
    split; [done|]. split; [done|]. split.
    + intros k Hk ->.
      pose proof (reciprocal_of_power_of_two k Hk) as Hc.
      split; [exact Hc|]. intros local rank.
      unfold float32_constant. cbn [Run.value]. unfold Run.mean.
      rewrite length_fmap, length_seq, Hc. unfold Qdiv. by rewrite Qmult_1_l.
    + apply exact_reciprocal_of_power_of_two. lia.
  - intros ->. rewrite decide_False by lia. split; [done|]. split; [exact Hlocal|done].
Qed.

Lemma reported_loss_is_mean_witness :
  ∃ out, main_graph Hps.default 2 0 = Ok out
    ∧ loss out = Mul (Allreduce (local_loss out))
                     (Constant (rational_of (float32_of (reciprocal 2)))).
Proof.
  assert (Hps.warmup_iters Hps.default ≠ 0) as Hwarm by (cbn; lia).
  assert (Hps.n_layer Hps.default = 0 ∨ Hps.n_head Hps.default ≠ 0) as Hok
    by (right; cbn; lia).
  assert (1 < 2) as Hsize by lia.
  destruct (reported_loss_is_mean Hps.default 2 0 Hwarm Hok)
    as (out & Hrun & _ & Hmany & _).
  exists out. split; [exact Hrun|exact (proj1 (Hmany Hsize))].
Defined.

(** C8 as stated fails with three processes: the constant of the graph
    is the float32 number [11184811 / 33554432], not [1 / 3]; with the
    per-process losses 1, 1 and 2 the loss returned is
    [11184811 / 8388608], and their mean is [4 / 3]. *)
Lemma reported_loss_is_not_the_mean :
  ∃ out,
    main_graph Hps.default 3 0 = Ok out
    ∧ loss out = Mul (Allreduce (local_loss out))
                     (Constant (rational_of (float32_of (reciprocal 3))))
    ∧ (rational_of (float32_of (reciprocal 3)) == 11184811 # 33554432)%Q
    ∧ ¬ (rational_of (float32_of (reciprocal 3)) == 1 / of_nat 3)%Q
    ∧ let local := λ (p : nat) (_ : tensor), if decide (p = 2) then 2%Q else 1%Q in
      (Run.mean ((λ p, local p (local_loss out)) <$> seq 0 3) == 4 # 3)%Q
      ∧ (Run.value 3 local 0 (loss out) == 11184811 # 8388608)%Q
      ∧ ¬ (Run.value 3 local 0 (loss out)
           == Run.mean ((λ p, local p (local_loss out)) <$> seq 0 3))%Q.
Proof.
  assert (Hps.warmup_iters Hps.default ≠ 0) as Hwarm by (cbn; lia).
  assert (Hps.n_layer Hps.default = 0 ∨ Hps.n_head Hps.default ≠ 0) as Hok
    by (right; cbn; lia).
  destruct (main_graph_run Hps.default 3 0 Hwarm Hok) as (h & vs & _ & _ & _ & Hrun).
  eexists. split; [exact Hrun|].
  unfold assemble. rewrite split_grads_filter. cbn [loss local_loss].
  rewrite decide_True by lia.
  split; [done|]. split; [vm_compute; reflexivity|].
  split; [intros H; vm_compute in H; discriminate H|].
  cbv zeta. split; [vm_compute; reflexivity|].
  split; [vm_compute; reflexivity|].
  intros H. vm_compute in H. discriminate H.
Qed.

(** *** No name is used twice

    [tf.get_variable] raises on a name that exists already; the names the
    script asks for are all different. *)

Lemma str_inj l l' : str l = str l' → l = l'.
Proof.
  unfold str. intros Heq. apply Unsigned.to_uint_inj.
  assert (NilEmpty.uint_of_string (NilEmpty.string_of_uint (Nat.to_uint l))
          = NilEmpty.uint_of_string (NilEmpty.string_of_uint (Nat.to_uint l'))) as H
    by (by rewrite Heq).
  rewrite !NilEmpty.usu in H. congruence.
Qed.

Lemma layer_name_inj l l' : layer_name l = layer_name l' → l = l'.
Proof.
  unfold layer_name. rewrite !append_cons. intros Heq. apply str_inj.
  by simplify_eq.
Qed.

Lemma block_paths_distinct : NoDup block_paths.
Proof.
  unfold block_paths. repeat (apply NoDup_cons; split;
    [rewrite ?elem_of_cons, elem_of_nil; intros H; destruct_or?; done|]).
  apply NoDup_nil_2.
Qed.

Lemma variable_paths_distinct (n_layer : nat) :
  NoDup (["model"; "embed"; "x"] :: ["model"; "embed"; "pos"]
         :: (l ← seq 0 n_layer;
             (λ p, "model"%string :: layer_name l :: p) <$> block_paths)).
Proof.
  assert (∀ name (p : list string),
    p ∈ (l ← seq 0 n_layer; (λ p, "model"%string :: layer_name l :: p) <$> block_paths) →
    p ≠ ["model"; "embed"; name]%string) as Hembed.
  { intros name p Hp ->. apply list_elem_of_bind in Hp as (l & Hp & _).
    apply list_elem_of_fmap in Hp as (bp & Heq & _).
    unfold layer_name in Heq. rewrite !append_cons in Heq. discriminate. }
  apply NoDup_cons. split.
  { rewrite elem_of_cons. intros [|Hin]; [done|]. by apply (Hembed "x"%string) in Hin. }
  apply NoDup_cons. split.
  { intros Hin. by apply (Hembed "pos"%string) in Hin. }
  apply NoDup_bind; [| |apply NoDup_seq].
  - intros l1 l2 p _ _ H1 H2.
    apply list_elem_of_fmap in H1 as (bp1 & -> & _).
    apply list_elem_of_fmap in H2 as (bp2 & Heq & _).
    apply layer_name_inj. congruence.
  - intros l _. apply NoDup_fmap_2; [|apply block_paths_distinct].
    intros p1 p2 Heq. congruence.
Qed.

(** *** Weight tying *)

Lemma layer_name_not_logits l : layer_name l ≠ "logits"%string.
Proof. unfold layer_name. rewrite !append_cons. discriminate. Qed.

Lemma no_logits_scope (ls : list nat) :
  Forall (λ p : list string, "logits"%string ∉ p)
    (l ← ls; (λ p, "model"%string :: layer_name l :: p) <$> block_paths).
Proof.
  apply Forall_forall. intros p Hp.
  apply list_elem_of_bind in Hp as (l & Hp & _).
  apply list_elem_of_fmap in Hp as (bp & -> & Hbp).
  intros Hin. apply elem_of_cons in Hin as [|Hin]; [done|].
  apply elem_of_cons in Hin as [Heq|Hin]; [by destruct (layer_name_not_logits l)|].
  revert Hbp Hin. unfold block_paths. rewrite !elem_of_cons, elem_of_nil.
  intros Hbp Hin. destruct_or!; try done; subst bp;
    repeat (apply elem_of_cons in Hin as [?|Hin]; [done|]);
    by apply elem_of_nil in Hin.
Qed.

(** C10: the logits are the product of the reshaped output of the layers
    with the transpose of [x_embed], the cast of the variable [embed/x] that
    the embedding lookup of the inputs reads; the trainable variables are
    [embed/x], [embed/pos] and those of the layers, and none lies in scope
    [logits]. *)
Theorem output_projection_is_embedding hps mpi_size mpi_rank :
  Hps.warmup_iters hps ≠ 0 → Hps.n_layer hps = 0 ∨ Hps.n_head hps ≠ 0 →
  ∃ out h, main_graph hps mpi_size mpi_rank = Ok out
    ∧ x_embed out = fp16 (x_variable hps)
    ∧ (∃ grad_groups g,
         layers hps
           (Add (EmbeddingLookup (x_embed out) (X_placeholder hps))
                (fp16 (pos_variable hps)))
           ["embed"] (seq 0 (Hps.n_layer hps))
           (Graph ["model"] [x_variable hps; pos_variable hps])
         = Ok ((h, grad_groups), g))
    ∧ logits out
      = MatMul (Reshape h [(-1)%Z; Z.of_nat (Hps.n_state hps)]) (x_embed out) true
    ∧ local_loss out = ReduceMean (SoftmaxCrossEntropy (logits out) (Y_placeholder hps))
    ∧ var_path <$> params out
      = ["model"; "embed"; "x"] :: ["model"; "embed"; "pos"]
        :: (l ← seq 0 (Hps.n_layer hps);
            (λ p, "model"%string :: layer_name l :: p) <$> block_paths)
    ∧ Forall (λ p : list string, "logits"%string ∉ p) (var_path <$> params out)
    ∧ NoDup (var_path <$> params out).
Proof.
  intros Hwarm Hok.
  destruct (main_graph_run hps mpi_size mpi_rank Hwarm Hok)
    as (h & vs & Hlayers & Hvs & _ & Hrun).
  eexists _, h. split; [exact Hrun|].
  unfold assemble. rewrite split_grads_filter.
  cbn [x_embed logits local_loss params].
  split; [done|]. split; [by eexists _, _|]. split; [done|]. split; [done|].
  rewrite fmap_app, Hvs. split; [done|]. split; [|apply variable_paths_distinct].
  apply Forall_app. split; [|apply no_logits_scope].
  cbn. repeat constructor; intros Hin;
    repeat (apply elem_of_cons in Hin as [?|Hin]; [done|]);
    by apply elem_of_nil in Hin.
Qed.

Lemma output_projection_is_embedding_witness :
  ∃ out h, main_graph Hps.default 1 0 = Ok out
    ∧ logits out
      = MatMul (Reshape h [(-1)%Z; 512%Z]) (fp16 (x_variable Hps.default)) true.
Proof.
  assert (Hps.warmup_iters Hps.default ≠ 0) as Hwarm by (cbn; lia).
  assert (Hps.n_layer Hps.default = 0 ∨ Hps.n_head Hps.default ≠ 0) as Hok
    by (right; cbn; lia).
  destruct (output_projection_is_embedding Hps.default 1 0 Hwarm Hok)
    as (out & h & Hrun & Hx & _ & Hlogits & _).
  exists out, h. split; [exact Hrun|]. rewrite Hlogits, Hx. reflexivity.
Defined.

(** *** The gradient scale *)

Lemma log_all_stats_fmap global_step (f : tensor → tensor) (ps : list tensor) :
  log_all_stats global_step (f <$> ps) ps
  = (λ p, LogStats (f p) (Cast global_step int32) "scale_stats.txt"
            (op_name p +:+ "_" +:+ String.concat "_" (str <$> shape p))) <$> ps.
Proof.
  unfold log_all_stats. induction ps as [|p ps IH]; [done|]. cbn. by rewrite <- IH.
Qed.






(** * Further properties of the script *)

Import Data.

(** ** More on the data pipeline *)

Lemma slice_pieces {A} (X : list A) i1 i2 :
  i1 ≤ i2 → slice X 0 i1 ++ slice X i1 i2 ++ slice X i2 (length X) = X.
Proof.
  intros Hle. unfold slice. rewrite drop_0, Nat.sub_0_r.
  rewrite (take_ge (drop i2 X)) by (rewrite length_drop; lia).
  replace (drop i2 X) with (drop (i2 - i1) (drop i1 X))
    by (rewrite drop_drop; f_equal; lia).
  by rewrite !take_drop.
Qed.

Lemma read_text_at_most n contents X :
  read_text n contents = Ok X → length X ≤ 4 * n.
Proof.
  revert contents X. induction n as [|n IH]; intros contents X.
  { destruct contents; intros [= <-]; cbn; lia. }
  destruct contents as [|b0 r0]; [intros [= <-]; cbn; lia|].
  cbn [read_text].
  assert (∀ (pre : list byte) r Y,
            length pre ≤ 4 → (λ s, pre ++ s) <$> read_text n r = Ok Y →
            length Y ≤ 4 * S n) as Hstep.
  { intros pre r Y Hpre. destruct (read_text n r) as [Z|] eqn:E; [|done].
    intros [= <-]. apply IH in E. rewrite length_app. lia. }
  repeat match goal with
  | |- context [if ?c then _ else _] => destruct c
  | |- context [match ?l with [] => _ | _ :: _ => _ end] => destruct l
  end;
  try (intros [= <-]; cbn; lia); try done.
  all: try (apply (Hstep [_]); cbn; lia).
  all: try (apply (Hstep [_; _]); cbn; lia).
  all: try (apply (Hstep [_; _; _]); cbn; lia).
  all: try (apply (Hstep [_; _; _; _]); cbn; lia).
Qed.

(** X1: when [enwik8] returns, its three arrays are consecutive pieces of
    the one array [X] that was read: appended they give [X] back, the
    training array has [n_train] elements unless [X] is shorter, the
    validation array [n_valid] unless what follows is shorter, and [X] has
    at most four bytes for each of the [n_train + n_valid + n_test]
    characters asked for. *)
Theorem enwik8_keeps_what_was_read contents n_train n_valid n_test trX vaX teX :
  enwik8 contents n_train n_valid n_test = Ok (trX, vaX, teX) →
  ∃ X, read_text (n_train + n_valid + n_test) contents = Ok X
       ∧ trX ++ vaX ++ teX = X
       ∧ length trX = n_train `min` length X
       ∧ length vaX = n_valid `min` (length X - n_train)
       ∧ length X ≤ 4 * (n_train + n_valid + n_test).
Proof.
  unfold enwik8. destruct (read_text _ contents) as [X|e] eqn:Hread; [|done].
  cbn [mbind result_bind]. unfold split3. intros [= <- <- <-].
  exists X. split; [done|]. split; [apply slice_pieces; lia|].
  rewrite !length_slice. apply read_text_at_most in Hread. lia.
Qed.

Lemma enwik8_keeps_what_was_read_witness :
  ∃ X, read_text (1 + 0 + 1) [x0d; x0a; x61; x62] = Ok X
       ∧ [x0a] ++ [] ++ [x61] = X
       ∧ length [x0a] = 1 `min` length X
       ∧ length (@nil byte) = 0 `min` (length X - 1)
       ∧ length X ≤ 4 * (1 + 0 + 1).
Proof.
  apply (enwik8_keeps_what_was_read [x0d; x0a; x61; x62] 1 0 1). reflexivity.
Defined.

(** ** More on the minibatches *)

Lemma arange_elem start stop step x :
  x ∈ arange start stop step → ∃ i, x = start + i * step.
Proof.
  unfold arange. intros Hx. apply list_elem_of_fmap in Hx as (i & -> & _). by exists i.
Qed.

Lemma arange_NoDup start stop step : NoDup (arange start stop step).
Proof.
  destruct (decide (step = 0)) as [->|Hstep]; [apply NoDup_nil_2|].
  unfold arange. apply NoDup_fmap_2_strong; [|apply NoDup_seq].
  intros i j _ _ Heq. nia.
Qed.

Lemma epoch_indices_NoDup X n_timesteps n_batch mpi_size rng :
  numpy_draws n_timesteps rng →
  NoDup (epoch_indices X n_timesteps n_batch mpi_size rng).
Proof.
  intros [_ Hperm]. unfold epoch_indices.
  eapply sublist_NoDup; [|apply sublist_take].
  rewrite Hperm. apply arange_NoDup.
Qed.

(** X2: every starting index of an epoch is the drawn offset plus a
    multiple of [n_timesteps], and the [n_timesteps + 1] bytes from it end
    before the last byte of [X]. *)
Theorem starting_indices_on_the_grid X n_timesteps n_batch mpi_size rng :
  numpy_draws n_timesteps rng → 0 < n_timesteps →
  Forall (λ start_idx,
      randint_draw rng ≤ start_idx
      ∧ (start_idx - randint_draw rng) `mod` n_timesteps = 0
      ∧ start_idx + n_timesteps + 1 < length X)
    (epoch_indices X n_timesteps n_batch mpi_size rng).
Proof.
  intros Hdraws Hn. apply Forall_forall. intros s Hs.
  pose proof (epoch_indices_in_bounds X n_timesteps n_batch mpi_size rng Hdraws) as Hin.
  apply (proj1 (Forall_forall _ _) Hin) in Hs as Hbound. cbn in Hbound.
  unfold epoch_indices in Hs. apply subseteq_take in Hs.
  destruct Hdraws as [_ Hperm]. rewrite Hperm in Hs.
  apply arange_elem in Hs as (i & ->).
  split; [lia|]. split; [|done].
  replace (randint_draw rng + i * n_timesteps - randint_draw rng)
    with (i * n_timesteps) by lia.
  by apply Nat.Div0.mod_mul.
Qed.

Lemma starting_indices_on_the_grid_witness :
  Forall (λ start_idx,
      1 ≤ start_idx ∧ (start_idx - 1) `mod` 2 = 0 ∧ start_idx + 2 + 1 < 12)
    (epoch_indices X12 2 1 2 reversing).
Proof.
  assert (0 < 2) as Hn by lia.
  exact (starting_indices_on_the_grid X12 2 1 2 reversing reversing_numpy_draws Hn).
Defined.

Lemma row_position_inj size b m1 r1 i1 m2 r2 i2 :
  r1 < size → r2 < size → i1 < b → i2 < b →
  (m1 * size + r1) * b + i1 = (m2 * size + r2) * b + i2 →
  (m1, r1, i1) = (m2, r2, i2).
Proof.
  intros Hr1 Hr2 Hi1 Hi2 Heq.
  destruct (Nat.div_mod_unique b (m1 * size + r1) (m2 * size + r2) i1 i2)
    as [Hq ->]; [done|done|lia|].
  destruct (Nat.div_mod_unique size m1 m2 r1 r2) as [-> ->]; [done|done|lia|done].
Qed.

Lemma reshape3_inv (a : list nat) d1 d2 idxs :
  reshape3 a d1 d2 = Ok idxs →
  d1 * d2 ≠ 0 ∧ length a `mod` (d1 * d2) = 0.
Proof.
  unfold reshape3. by repeat case_decide.
Qed.

(** X3: the starting indices at two different places (minibatch, rank,
    row) of the reshaped index array are at least [n_timesteps] apart: the
    inputs of one epoch do not overlap, across minibatches, ranks and
    rows. *)
Theorem sequences_never_overlap X n_timesteps n_batch mpi_size rng idxs :
  numpy_draws n_timesteps rng →
  reshape3 (epoch_indices X n_timesteps n_batch mpi_size rng) mpi_size n_batch = Ok idxs →
  ∀ m1 r1 i1 l1 s1 m2 r2 i2 l2 s2,
    starting_indices_of idxs m1 r1 = Some l1 → l1 !! i1 = Some s1 →
    starting_indices_of idxs m2 r2 = Some l2 → l2 !! i2 = Some s2 →
    (m1, r1, i1) ≠ (m2, r2, i2) →
    s1 + n_timesteps ≤ s2 ∨ s2 + n_timesteps ≤ s1.
Proof.
  intros Hdraws Hre m1 r1 i1 l1 s1 m2 r2 i2 l2 s2 Hl1 Hs1 Hl2 Hs2 Hne.
  set (flat := epoch_indices X n_timesteps n_batch mpi_size rng) in *.
  destruct (reshape3_inv _ _ _ _ Hre) as [Hspb Hmod].
  destruct (reshape3_ok flat mpi_size n_batch Hspb Hmod) as (idxs' & Hre' & _ & Hstarts).
  rewrite Hre in Hre'. injection Hre' as <-.
  rewrite Hstarts in Hl1, Hl2.
  destruct (decide (_ ∧ r1 < _)) as [[_ Hr1]|]; [|done].
  destruct (decide (_ ∧ r2 < _)) as [[_ Hr2]|]; [|done].
  injection Hl1 as <-. injection Hl2 as <-.
  pose proof (lookup_lt_Some _ _ _ Hs1) as Hi1.
  pose proof (lookup_lt_Some _ _ _ Hs2) as Hi2.
  rewrite length_slice in Hi1, Hi2.
  rewrite lookup_slice in Hs1, Hs2 by lia.
  assert (s1 ≠ s2) as Hdiff.
  { intros <-. apply Hne. apply (row_position_inj mpi_size n_batch); try lia.
    eapply NoDup_lookup; [by apply epoch_indices_NoDup|exact Hs1|exact Hs2]. }
  destruct (decide (n_timesteps = 0)) as [->|Hn]; [lia|].
  assert (∀ s i, flat !! i = Some s →
            ∃ k, s = randint_draw rng + k * n_timesteps) as Hgrid.
  { intros s i Hs. apply list_elem_of_lookup_2 in Hs.
    unfold flat, epoch_indices in Hs. apply subseteq_take in Hs.
    destruct Hdraws as [_ Hperm]. rewrite Hperm in Hs. by apply arange_elem in Hs. }
  destruct (Hgrid _ _ Hs1) as (k1 & ->). destruct (Hgrid _ _ Hs2) as (k2 & ->).
  assert (k1 ≠ k2) by (intros ->; done). nia.
Qed.

Lemma sequences_never_overlap_witness :
  ∃ idxs l1 l2 s1 s2,
    reshape3 (epoch_indices X12 2 1 2 reversing) 2 1 = Ok idxs
    ∧ starting_indices_of idxs 0 0 = Some l1 ∧ l1 !! 0 = Some s1
    ∧ starting_indices_of idxs 0 1 = Some l2 ∧ l2 !! 0 = Some s2
    ∧ (s1 + 2 ≤ s2 ∨ s2 + 2 ≤ s1).
Proof.
  eexists _, _, _, _, _.
  split; [reflexivity|]. split; [reflexivity|]. split; [reflexivity|].
  split; [reflexivity|]. split; [reflexivity|].
  eapply (sequences_never_overlap X12 2 1 2 reversing _ reversing_numpy_draws
            eq_refl 0 0 0 _ _ 0 1 0); try reflexivity.
  intros [=].
Defined.

(** X4: an epoch chooses one sequence for every [n_timesteps] bytes from
    the offset up to [X.size - (n_timesteps + 1)], keeps a prefix of the
    shuffled choice, yields one minibatch for each [mpi_size * n_batch] kept
    and leaves out fewer than [mpi_size * n_batch]. *)
Theorem truncation_drops_less_than_a_batch X n_timesteps n_batch mpi_rank mpi_size rng :
  numpy_draws n_timesteps rng → 0 < n_timesteps → 0 < n_batch → mpi_rank < mpi_size →
  let chosen := permutation_draw rng
      (arange (randint_draw rng) (length X - (n_timesteps + 1)) n_timesteps) in
  let idxs := epoch_indices X n_timesteps n_batch mpi_size rng in
  let run := iter_data X n_timesteps n_batch mpi_rank mpi_size rng in
  length chosen
  = (length X - (n_timesteps + 1) - randint_draw rng + (n_timesteps - 1)) `div` n_timesteps
  ∧ idxs = take (length idxs) chosen
  ∧ length idxs = length (yielded run) * (mpi_size * n_batch)
  ∧ length chosen - length idxs < mpi_size * n_batch.
Proof.
  intros Hdraws Hn Hb Hr chosen idxs run.
  assert (mpi_size * n_batch ≠ 0) as Hspb by nia.
  split; [|split; [|split]].
  - subst chosen. destruct Hdraws as [_ Hperm]. rewrite Hperm.
    unfold arange. by rewrite length_fmap, length_seq.
  - subst idxs. unfold epoch_indices. fold chosen.
    rewrite length_take. rewrite Nat.min_l; [done|].
    rewrite Nat.mul_comm. apply Nat.Div0.mul_div_le.
  - subst run. rewrite iter_data_run by done. cbn [yielded].
    rewrite length_fmap, length_seq. fold idxs.
    destruct (epoch_indices_minibatches X n_timesteps n_batch mpi_size rng Hspb)
      as [Hmod _]. fold idxs in Hmod.
    pose proof (Nat.div_mod_eq (length idxs) (mpi_size * n_batch)). lia.
  - subst idxs. rewrite length_epoch_indices. fold chosen.
    pose proof (Nat.div_mod_eq (length chosen) (mpi_size * n_batch)).
    pose proof (Nat.mod_upper_bound (length chosen) (mpi_size * n_batch) Hspb). lia.
Qed.

Lemma truncation_drops_less_than_a_batch_witness :
  length (epoch_indices X12 2 1 2 reversing)
  = length (yielded (iter_data X12 2 1 0 2 reversing)) * (2 * 1).
Proof.
  assert (0 < 2) as H2 by lia. assert (0 < 1) as H1 by lia.
  exact (proj1 (proj2 (proj2
    (truncation_drops_less_than_a_batch X12 2 1 0 2 reversing
       reversing_numpy_draws H2 H1 H2)))).
Defined.

Lemma arange_empty start stop step : stop ≤ start → arange start stop step = [].
Proof.
  intros Hle. unfold arange. replace (stop - start) with 0 by lia.
  destruct step as [|step]; [done|].
  cbn [Nat.add Nat.sub]. rewrite Nat.sub_0_r.
  by rewrite Nat.div_small by lia.
Qed.

Lemma shuffle_of_nothing rng n_timesteps :
  numpy_draws n_timesteps rng → permutation_draw rng [] = [].
Proof. intros [_ Hperm]. apply Permutation_nil_r. apply Hperm. Qed.

(** X5: on an array of at most [n_timesteps + 1] bytes [iter_data] yields
    nothing and raises nothing. *)
Theorem short_array_yields_nothing X n_timesteps n_batch mpi_rank mpi_size rng :
  numpy_draws n_timesteps rng →
  length X ≤ n_timesteps + 1 → 0 < n_timesteps → 0 < n_batch → 0 < mpi_size →
  iter_data X n_timesteps n_batch mpi_rank mpi_size rng = Trace [] None.
Proof.
  intros Hdraws HX Hn Hb Hsize. unfold iter_data.
  assert (mpi_size * n_batch ≠ 0) as Hspb by nia.
  rewrite !decide_False by lia.
  assert (epoch_indices X n_timesteps n_batch mpi_size rng = []) as ->.
  { unfold epoch_indices. rewrite arange_empty by lia.
    rewrite (shuffle_of_nothing _ _ Hdraws). by rewrite take_nil. }
  unfold reshape3. rewrite decide_False by done.
  cbn [length]. rewrite Nat.Div0.mod_0_l, Nat.Div0.div_0_l. by rewrite decide_True.
Qed.

Lemma short_array_yields_nothing_witness :
  iter_data [x61; x62; x63] 2 1 0 2 reversing = Trace [] None.
Proof.
  apply (short_array_yields_nothing [x61; x62; x63] 2 1 0 2 reversing
           reversing_numpy_draws); cbn; lia.
Defined.

(** X6: with [mpi_rank] not below [mpi_size], [iter_data] yields nothing;
    it raises [IndexError] at its first minibatch when there is one and
    ends silently when there is none. *)
Theorem rank_out_of_range X n_timesteps n_batch mpi_rank mpi_size rng :
  numpy_draws n_timesteps rng →
  0 < n_timesteps → 0 < n_batch → 0 < mpi_size → mpi_size ≤ mpi_rank →
  let chosen := permutation_draw rng
      (arange (randint_draw rng) (length X - (n_timesteps + 1)) n_timesteps) in
  iter_data X n_timesteps n_batch mpi_rank mpi_size rng
  = Trace [] (if decide (mpi_size * n_batch ≤ length chosen)
              then Some IndexError else None).
Proof.
  intros Hdraws Hn Hb Hsize Hr chosen. unfold iter_data.
  assert (mpi_size * n_batch ≠ 0) as Hspb by nia.
  rewrite !decide_False by lia.
  set (idxs := epoch_indices X n_timesteps n_batch mpi_size rng).
  destruct (epoch_indices_minibatches X n_timesteps n_batch mpi_size rng Hspb)
    as [Hmod Hdiv]. fold idxs in Hmod, Hdiv. cbv zeta in Hdiv. fold chosen in Hdiv.
  destruct (reshape3_ok idxs mpi_size n_batch Hspb Hmod) as (idxs3 & -> & Hlen & Hstarts).
  rewrite Hlen, Hdiv.
  destruct (length chosen `div` (mpi_size * n_batch)) as [|k] eqn:Hk.
  - cbn. rewrite decide_False; [done|].
    apply Nat.div_small_iff in Hk; lia.
  - cbn [seq for_yield]. rewrite Hstarts, decide_False by lia.
    rewrite decide_True; [done|].
    pose proof (Nat.Div0.mul_div_le (length chosen) (mpi_size * n_batch)). nia.
Qed.

Lemma rank_out_of_range_witness :
  iter_data X12 2 1 5 2 reversing = Trace [] (Some IndexError).
Proof.
  apply (rank_out_of_range X12 2 1 5 2 reversing reversing_numpy_draws); lia.
Defined.

(** ** The validation and test passes *)

(** X7: a validation or test pass raises [ZeroDivisionError] when the
    array gives fewer than [mpi_size * n_batch] sequences, since no loss is
    collected; otherwise it is the sum of the losses over the number of
    minibatches. *)
Theorem pass_without_a_batch_raises sess_run_loss X n_timesteps n_batch mpi_rank mpi_size rng :
  numpy_draws n_timesteps rng → 0 < n_timesteps → 0 < n_batch → mpi_rank < mpi_size →
  let chosen := permutation_draw rng
      (arange (randint_draw rng) (length X - (n_timesteps + 1)) n_timesteps) in
  let run := iter_data X n_timesteps n_batch mpi_rank mpi_size rng in
  (length chosen < mpi_size * n_batch →
     Evaluation.pass sess_run_loss X n_timesteps n_batch mpi_rank mpi_size rng
     = Raise ZeroDivisionError)
  ∧ (mpi_size * n_batch ≤ length chosen →
     Evaluation.pass sess_run_loss X n_timesteps n_batch mpi_rank mpi_size rng
     = Ok (foldl Qplus 0 (sess_run_loss <$> yielded run)
           / Tf.of_nat (length chosen `div` (mpi_size * n_batch)))%Q).
Proof.
  intros Hdraws Hn Hb Hr chosen run.
  assert (mpi_size * n_batch ≠ 0) as Hspb by nia.
  assert (raised run = None ∧
          length (yielded run) = length chosen `div` (mpi_size * n_batch)) as [Hnone Hlen].
  { subst run. rewrite iter_data_run by done. cbn [raised yielded].
    split; [done|]. rewrite length_fmap, length_seq.
    by destruct (epoch_indices_minibatches X n_timesteps n_batch mpi_size rng Hspb). }
  unfold Evaluation.pass. fold run. rewrite Hnone. unfold Evaluation.average.
  rewrite length_fmap, Hlen. split; intros Hcount.
  - rewrite decide_True; [done|]. apply Nat.div_small. lia.
  - rewrite decide_False; [done|].
    intros Hzero. apply Nat.div_small_iff in Hzero; lia.
Qed.

Lemma pass_without_a_batch_raises_witness :
  Evaluation.pass (λ _, 1%Q) [x61; x62; x63] 2 1 0 2 reversing = Raise ZeroDivisionError.
Proof.
  assert (0 < 2) as H2 by lia. assert (0 < 1) as H1 by lia.
  apply (pass_without_a_batch_raises (λ _, 1%Q) [x61; x62; x63] 2 1 0 2 reversing
           reversing_numpy_draws H2 H1 H2).
  cbn. lia.
Defined.

(** ** More on the attention structure *)

Lemma set_shape (a : list (list bool)) q k v rows cols :
  Blocks.shape_is a rows cols → Blocks.shape_is (Np.set a q k v) rows cols.
Proof.
  intros [Hrows Hcols]. unfold Np.set. split; [by rewrite length_alter|].
  apply Forall_lookup. intros i row Hrow.
  destruct (decide (q = i)) as [->|Hne].
  - rewrite list_lookup_alter_eq in Hrow.
    destruct (a !! i) as [row'|] eqn:E; [|done]. cbn in Hrow. simplify_eq.
    rewrite length_insert. by eapply (Forall_lookup_1 _ _ _ _ Hcols).
  - rewrite list_lookup_alter_ne in Hrow by done.
    by eapply (Forall_lookup_1 _ _ _ _ Hcols).
Qed.

Lemma clear_future_loop_shape l (a : list (list bool)) rows cols :
  Blocks.shape_is a rows cols →
  Blocks.shape_is (foldl Attention.clear_future a l) rows cols.
Proof.
  revert a. induction l as [|[q k] l IH]; intros a Ha; [done|].
  cbn [foldl]. apply IH. unfold Attention.clear_future.
  case_decide; [by apply set_shape|done].
Qed.

Lemma ones_shape rows cols : Blocks.shape_is (Np.ones rows cols) rows cols.
Proof.
  unfold Np.ones. split; [by rewrite length_replicate|].
  apply Forall_replicate. by rewrite length_replicate.
Qed.

Lemma shaped_array_eq (a b : list (list bool)) rows cols :
  Blocks.shape_is a rows cols → Blocks.shape_is b rows cols →
  (∀ q k, q < rows → k < cols → Np.get a q k = Np.get b q k) → a = b.
Proof.
  intros [Ha1 Ha2] [Hb1 Hb2] Hget. apply list_eq_same_length with rows; [done|done|].
  intros q ra rb Hq Hra Hrb.
  apply list_eq_same_length with cols.
  - by eapply (Forall_lookup_1 _ _ _ _ Hb2).
  - by eapply (Forall_lookup_1 _ _ _ _ Ha2).
  - intros k x y Hk Hx Hy. specialize (Hget q k Hq Hk).
    unfold Np.get in Hget. rewrite Hra, Hrb in Hget. cbn in Hget. congruence.
Qed.

Lemma lower_triangle_shape rows cols :
  Blocks.shape_is (Blocks.lower_triangle rows cols) rows cols.
Proof.
  unfold Blocks.lower_triangle. split; [by rewrite length_fmap, length_seq|].
  apply Forall_fmap, Forall_forall. intros q _. cbn.
  by rewrite length_fmap, length_seq.
Qed.

Lemma lower_triangle_get rows cols q k :
  q < rows → k < cols →
  Np.get (Blocks.lower_triangle rows cols) q k = Some (bool_decide (k ≤ q)).
Proof.
  intros Hq Hk. unfold Np.get, Blocks.lower_triangle.
  rewrite list_lookup_fmap, lookup_seq_lt by done. cbn.
  by rewrite list_lookup_fmap, lookup_seq_lt by done.
Qed.

Lemma layout_is_lower_triangle n_timesteps n_heads :
  Attention.layout (Attention.get_blocksparse_attention_ops n_timesteps n_heads)
  = Blocks.lower_triangle (n_timesteps `div` 64) (n_timesteps `div` 64).
Proof.
  apply shaped_array_eq with (n_timesteps `div` 64) (n_timesteps `div` 64).
  - unfold Attention.get_blocksparse_attention_ops. cbn [Attention.layout].
    change (foldl _ ?m ?l) with (foldl Attention.clear_future m l).
    apply clear_future_loop_shape, ones_shape.
  - apply lower_triangle_shape.
  - intros q k Hq Hk. rewrite layout_get, lower_triangle_get by done. done.
Qed.

Lemma diagonal_mask_is_lower_triangle rows cols head_idx idx blk_idx :
  Attention.causal_subblock_mask (rows, cols) head_idx idx idx blk_idx
  = Blocks.lower_triangle rows cols.
Proof.
  apply shaped_array_eq with rows cols.
  - unfold Attention.causal_subblock_mask. cbn [fst snd].
    rewrite decide_True by done.
    change (foldl _ ?m ?l) with (foldl Attention.clear_future m l).
    apply clear_future_loop_shape, ones_shape.
  - apply lower_triangle_shape.
  - intros q k Hq Hk.
    rewrite causal_subblock_mask_get, lower_triangle_get by done.
    by rewrite decide_True.
Qed.

Lemma row_ones q cols :
  length (filter Is_true ((λ k, bool_decide (k ≤ q)) <$> seq 0 cols)) = (q + 1) `min` cols.
Proof.
  induction cols as [|cols IH]; [cbn; lia|].
  rewrite seq_S, fmap_app, filter_app, length_app, IH. cbn [fmap list_fmap Nat.add].
  rewrite filter_cons, filter_nil.
  destruct (bool_decide (cols ≤ q)) eqn:E.
  - apply bool_decide_eq_true in E. cbn. rewrite decide_True by done. cbn. lia.
  - apply bool_decide_eq_false in E. cbn. rewrite decide_False by tauto. cbn. lia.
Qed.

Lemma lower_triangle_ones n :
  2 * Blocks.ones_in (Blocks.lower_triangle n n) = n * (n + 1).
Proof.
  unfold Blocks.ones_in, Blocks.lower_triangle.
  assert (∀ m, m ≤ n →
    2 * sum_list_with (λ row, length (filter Is_true row))
          ((λ q, (λ k, bool_decide (k ≤ q)) <$> seq 0 n) <$> seq 0 m)
    = m * (m + 1)) as H; [|by apply H].
  induction m as [|m IH]; intros Hm; [done|].
  rewrite seq_S, fmap_app, sum_list_with_app. cbn [fmap list_fmap sum_list_with Nat.add].
  rewrite row_ones. specialize (IH ltac:(lia)). lia.
Qed.

Lemma ones_count rows cols : Blocks.ones_in (Np.ones rows cols) = rows * cols.
Proof.
  unfold Blocks.ones_in, Np.ones.
  induction rows as [|rows IH]; [done|]. cbn [replicate sum_list_with]. rewrite IH.
  assert (length (filter Is_true (replicate cols true)) = cols) as ->; [|lia].
  clear. induction cols as [|cols IH]; [done|].
  cbn [replicate]. rewrite filter_cons_True by done. cbn. by rewrite IH.
Qed.

(** X8: the layout is a square array of [n_timesteps // 64] blocks a side
    of which [n (n + 1) / 2] are set; the mask of a block has the shape
    asked for, is all ones off the diagonal and has, on the diagonal of a
    square block, [rows (rows + 1) / 2] ones. *)
Theorem blocks_computed n_timesteps n_heads rows cols head_idx query_idx key_idx blk_idx :
  let bst := Attention.get_blocksparse_attention_ops n_timesteps n_heads in
  let n_time_blocks := n_timesteps `div` 64 in
  let mask := Attention.causal_subblock_mask (rows, cols) head_idx query_idx key_idx blk_idx in
  Blocks.shape_is (Attention.layout bst) n_time_blocks n_time_blocks
  ∧ 2 * Blocks.ones_in (Attention.layout bst) = n_time_blocks * (n_time_blocks + 1)
  ∧ Blocks.shape_is mask rows cols
  ∧ (query_idx ≠ key_idx → Blocks.ones_in mask = rows * cols)
  ∧ (query_idx = key_idx → rows = cols → 2 * Blocks.ones_in mask = rows * (rows + 1)).
Proof.
  intros bst n_time_blocks mask. subst bst mask.
  rewrite layout_is_lower_triangle. fold n_time_blocks.
  split; [apply lower_triangle_shape|]. split; [apply lower_triangle_ones|].
  destruct (decide (query_idx = key_idx)) as [->|Hne].
  - rewrite diagonal_mask_is_lower_triangle.
    split; [apply lower_triangle_shape|]. split; [done|].
    intros _ <-. apply lower_triangle_ones.
  - unfold Attention.causal_subblock_mask. cbn [fst snd]. rewrite decide_False by done.
    split; [apply ones_shape|]. split; [intros _; apply ones_count|done].
Qed.

Lemma blocks_computed_witness :
  2 * Blocks.ones_in (Attention.causal_subblock_mask (3, 3) 0 1 1 0) = 3 * (3 + 1).
Proof.
  exact (proj2 (proj2 (proj2 (proj2 (blocks_computed 128 1 3 3 0 1 1 0))))
           eq_refl eq_refl).
Defined.

Import Scaling.

(** ** More on the loss scaling *)

Section counter.
Context {F : Type} `{Number F}.

Lemma train_snoc (hps : hparams F) norm_scales norm_scale :
  train hps (norm_scales ++ [norm_scale]) = step hps norm_scale (train hps norm_scales).
Proof. unfold train. by rewrite foldl_app. Qed.

(** X9: whatever the run, [cost_count] stays between [0] and
    [hps.cost_count] (it stays [0] when that is negative). *)
Theorem cost_count_stays_bounded (hps : hparams F) (norm_scales : list F) :
  (0 ≤ cost_count (train hps norm_scales) ≤ Z.max 0 (hps_cost_count hps))%Z.
Proof.
  induction norm_scales as [|ns l IH] using rev_ind; [cbn; lia|].
  rewrite train_snoc. unfold step.
  destruct (is_zero ns); [cbn; lia|].
  destruct (hps_cost_count hps <=? cost_count (train hps l))%Z eqn:E; cbn; [lia|].
  apply Z.leb_gt in E. lia.
Qed.

(** X10: a run in which [norm_scale] is never zero doubles the cost scale
    once every [hps.cost_count + 1] iterations: after [n] iterations it was
    doubled [n // (cost_count + 1)] times and the counter is
    [n % (cost_count + 1)]. *)
Theorem clean_run_doubles_every_count_plus_one (hps : hparams F) (c : nat)
    (norm_scales : list F) :
  hps_cost_count hps = Z.of_nat c →
  Forall (λ norm_scale, is_zero norm_scale = false) norm_scales →
  let n := length norm_scales in
  train hps norm_scales
  = State (Nat.iter (n `div` (c + 1)) (λ scale, mul scale two) (hps_cost_scale hps))
          (Z.of_nat (n `mod` (c + 1))).
Proof.
  intros Hc. induction norm_scales as [|ns l IH] using rev_ind; intros Hclean n.
  { subst n. cbn [length]. rewrite Nat.Div0.div_0_l, Nat.Div0.mod_0_l. done. }
  apply Forall_app in Hclean as [Hl Hns]. rewrite Forall_singleton in Hns.
  specialize (IH Hl). cbv zeta in IH.
  subst n. rewrite train_snoc, IH. rewrite length_app. cbn [length].
  set (n := length l). unfold step. cbv beta in Hns. rewrite Hns.
  cbn [cost_count cur_cost_scale].
  pose proof (Nat.div_mod_eq n (c + 1)) as Hn.
  pose proof (Nat.mod_upper_bound n (c + 1) ltac:(lia)) as Hr.
  destruct (decide (n `mod` (c + 1) = c)) as [Hfull|Hpart].
  - rewrite (proj2 (Z.leb_le _ _)) by lia.
    assert ((n + 1) `div` (c + 1) = S (n `div` (c + 1))
            ∧ (n + 1) `mod` (c + 1) = 0) as [-> ->].
    { symmetry in Hn.
      destruct (Nat.div_mod_unique (c + 1) ((n + 1) `div` (c + 1)) (S (n `div` (c + 1)))
                  ((n + 1) `mod` (c + 1)) 0) as [? ?]; [|lia| |done].
      - apply Nat.mod_upper_bound. lia.
      - rewrite <- Nat.div_mod_eq. lia. }
    done.
  - rewrite (proj2 (Z.leb_gt _ _)) by lia.
    assert ((n + 1) `div` (c + 1) = n `div` (c + 1)
            ∧ (n + 1) `mod` (c + 1) = n `mod` (c + 1) + 1) as [-> ->].
    { destruct (Nat.div_mod_unique (c + 1) ((n + 1) `div` (c + 1)) (n `div` (c + 1))
                  ((n + 1) `mod` (c + 1)) (n `mod` (c + 1) + 1)) as [? ?]; [|lia| |done].
      - apply Nat.mod_upper_bound. lia.
      - rewrite <- Nat.div_mod_eq. lia. }
    f_equal. lia.
Qed.

(** X11: a run in which [norm_scale] is zero at every iteration halves
    the cost scale at every iteration and leaves the counter at [0]. *)
Theorem saturated_run_halves_every_step (hps : hparams F) (norm_scales : list F) :
  Forall (λ norm_scale, is_zero norm_scale = true) norm_scales →
  train hps norm_scales
  = State (Nat.iter (length norm_scales) (λ scale, mul scale half) (hps_cost_scale hps)) 0.
Proof.
  induction norm_scales as [|ns l IH] using rev_ind; intros Hsat; [done|].
  apply Forall_app in Hsat as [Hl Hns]. rewrite Forall_singleton in Hns.
  rewrite train_snoc, length_app. cbn [length]. rewrite Nat.add_1_r. cbn [Nat.iter].
  unfold step. cbv beta in Hns. rewrite Hns. by rewrite (IH Hl).
Qed.
End counter.

Lemma cost_count_stays_bounded_witness :
  (0 ≤ cost_count (train (Hparams 65536%float 2) (replicate 7 1%float)) ≤ Z.max 0 2)%Z.
Proof.
  exact (cost_count_stays_bounded (Hparams 65536%float 2) (replicate 7 1%float)).
Defined.

Lemma clean_run_doubles_every_count_plus_one_witness :
  train (Hparams 65536%float 2) (replicate 7 1%float) = State 262144%float 1.
Proof.
  assert (hps_cost_count (Hparams 65536%float 2) = Z.of_nat 2) as Hc by reflexivity.
  assert (Forall (λ norm_scale : float, is_zero norm_scale = false)
            (replicate 7 1%float)) as Hclean
    by (apply Forall_replicate; reflexivity).
  exact (clean_run_doubles_every_count_plus_one (Hparams 65536%float 2) 2
           (replicate 7 1%float) Hc Hclean).
Defined.

Lemma saturated_run_halves_every_step_witness :
  train (Hparams 65536%float 2000) (replicate 3 0%float) = State 8192%float 0.
Proof.
  assert (Forall (λ norm_scale : float, is_zero norm_scale = true)
            (replicate 3 0%float)) as Hsat
    by (apply Forall_replicate; reflexivity).
  exact (saturated_run_halves_every_step (Hparams 65536%float 2000)
           (replicate 3 0%float) Hsat).
Defined.

Import Tf Model Views.

(** ** More on the graph *)

(** *** When the construction raises *)

Lemma conv1d_ok x sc nf relu g :
  ∃ y g', conv1d x sc nf relu g = Ok (y, g').
Proof. destruct (creates_conv1d x sc nf relu g) as (y & vs & -> & _). by eexists _, _. Qed.

Lemma attention_without_heads x sc n_timesteps g :
  attention x sc 0 n_timesteps g = Raise ZeroDivisionError.
Proof.
  unfold attention, variable_scope.
  set (g0 := Graph _ _).
  destruct (conv1d_ok x "q" (last_dim x) false g0) as (q & g1 & Hq).
  destruct (conv1d_ok x "k" (last_dim x) false g1) as (k & g2 & Hk).
  destruct (conv1d_ok x "v" (last_dim x) false g2) as (v & g3 & Hv).
  unfold mbind at 1, build_bind at 1. rewrite Hq.
  unfold mbind at 1, build_bind at 1. rewrite Hk.
  unfold mbind at 1, build_bind at 1. rewrite Hv.
  reflexivity.
Qed.

Lemma layers_without_heads hps h grad_groups l range g :
  Hps.n_head hps = 0 →
  layers hps h grad_groups (l :: range) g = Raise ZeroDivisionError.
Proof.
  intros Hhead. cbn [layers]. cbv zeta.
  unfold mbind at 1, build_bind at 1. unfold transformer_block, variable_scope.
  unfold mbind at 1, build_bind at 1. by rewrite Hhead, attention_without_heads.
Qed.

Lemma main_graph_result hps mpi_size mpi_rank :
  if decide (Hps.warmup_iters hps = 0 ∨ (Hps.n_layer hps ≠ 0 ∧ Hps.n_head hps = 0))
  then main_graph hps mpi_size mpi_rank = Raise ZeroDivisionError
  else ∃ out, main_graph hps mpi_size mpi_rank = Ok out.
Proof.
  case_decide as Hbad.
  - unfold main_graph, model, variable_scope.
    unfold mbind at 1, build_bind at 1. unfold untrained_variable.
    cbn [scope trainable_variables app].
    unfold mbind at 1, build_bind at 1. unfold truediv.
    destruct (decide (Hps.warmup_iters hps = 0)) as [->|Hwarm]; [done|].
    destruct Hbad as [|[Hlayer Hhead]]; [done|].
    rewrite (Qeq_bool_false _ _ (of_nat_nonzero _ Hwarm)).
    unfold mret at 1, build_ret at 1.
    unfold mbind at 1, build_bind at 1.
    change (embed hps (X_placeholder hps) (Graph ["model"] []))
      with (Ok ((fp16 (x_variable hps), embedded_input hps),
                Graph ["model"] [x_variable hps; pos_variable hps]) : result _).
    cbv zeta. unfold mbind at 1, build_bind at 1.
    destruct (Hps.n_layer hps) as [|n]; [done|].
    cbn [seq]. by rewrite layers_without_heads.
  - destruct (main_graph_run hps mpi_size mpi_rank) as (h & vs & _ & _ & _ & ->).
    + lia.
    + destruct (decide (Hps.n_layer hps = 0)); [by left|right; lia].
    + by eexists.
Qed.

(** X12: with [warmup_iters = 0] the construction of the graph raises
    [ZeroDivisionError] (line 148); it returns exactly when [warmup_iters]
    is not zero and, if there is a layer, [n_head] is not zero (line
    111). *)
Theorem graph_construction_raises hps mpi_size mpi_rank :
  (Hps.warmup_iters hps = 0 →
     main_graph hps mpi_size mpi_rank = Raise ZeroDivisionError)
  ∧ ((∃ out, main_graph hps mpi_size mpi_rank = Ok out)
     ↔ Hps.warmup_iters hps ≠ 0 ∧ (Hps.n_layer hps = 0 ∨ Hps.n_head hps ≠ 0)).
Proof.
  pose proof (main_graph_result hps mpi_size mpi_rank) as Hresult.
  case_decide as Hbad.
  - split; [done|]. split.
    + intros [out Hout]. by rewrite Hresult in Hout.
    + intros [Hwarm Hlayers]. exfalso. destruct Hbad as [|[? ?]]; [done|].
      by destruct Hlayers.
  - split; [intros Hwarm; exfalso; apply Hbad; by left|].
    split; [intros _|done].
    split; [intros Hwarm; apply Hbad; by left|].
    destruct (decide (Hps.n_layer hps = 0)) as [|Hlayer]; [by left|right].
    intros Hhead. apply Hbad. by right.
Qed.

Lemma graph_construction_raises_witness :
  main_graph no_warmup 1 0 = Raise ZeroDivisionError.
Proof. exact (proj1 (graph_construction_raises no_warmup 1 0) eq_refl). Defined.

(** *** Gradients and their parameters *)

Lemma gradient_of_zip (f : tensor → tensor) y (ps : list tensor) :
  (∀ p, gradient_of (f p) = Some (y, p)) →
  Forall (λ gp, gradient_of gp.1 = Some (y, gp.2)) (zip (f <$> ps) ps).
Proof.
  intros Hf. induction ps as [|p ps IH]; [constructor|].
  cbn. constructor; [apply Hf|apply IH].
Qed.

(** X13: the gradients that reach the optimizers are as many as the
    parameters and in their order: the gradient paired with a parameter is,
    below the all-reduce and the logging, the gradient with respect to that
    parameter of the local loss scaled by [cost_scale], the loss before the
    all-reduce of line 186. *)
Theorem gradients_stay_with_their_parameters hps mpi_size mpi_rank
    ys cost_scale grad_scale global_step learning_rate x_embed logits grad_groups params :
  let out := assemble hps mpi_size mpi_rank ys cost_scale grad_scale global_step
               learning_rate x_embed logits grad_groups params in
  length (grads out) = length params
  ∧ Forall (λ gp, gradient_of gp.1
                  = Some (ScaleTensor (local_loss out) cost_scale, gp.2))
      (zip (grads out) params).
Proof.
  intros out. split; [apply length_final_grads|].
  subst out. unfold assemble. rewrite split_grads_filter. cbn [grads local_loss].
  unfold group_allreduce. rewrite <- list_fmap_compose.
  repeat case_decide; rewrite ?log_all_stats_fmap; by apply gradient_of_zip.
Qed.

(** *** The search strings of the all-reduce groups *)

Lemma one_group_up_to_ten_layers n_layer :
  n_layer ≤ 10 →
  Forall (λ p, length (matching_groups (all_groups n_layer) (String.concat "/" p)) = 1)
    (all_paths n_layer).
Proof.
  intros Hle.
  assert (forallb (λ p, length (matching_groups (all_groups n_layer)
                                  (String.concat "/" p)) =? 1)
            (all_paths n_layer) = true) as Hall.
  { do 11 (destruct n_layer as [|n_layer]; [vm_compute; reflexivity|]). lia. }
  apply Forall_forall. intros p Hp%list_elem_of_In.
  apply Nat.eqb_eq. revert p Hp. by apply forallb_forall.
Qed.

Lemma main_graph_parts hps mpi_size mpi_rank :
  Hps.warmup_iters hps ≠ 0 → Hps.n_layer hps = 0 ∨ Hps.n_head hps ≠ 0 →
  ∃ logits params,
    var_path <$> params = all_paths (Hps.n_layer hps)
    ∧ main_graph hps mpi_size mpi_rank
      = Ok (assemble hps mpi_size mpi_rank (Y_placeholder hps) cost_scale_placeholder
              (grad_scale_of cost_scale_placeholder mpi_size)
              global_step_variable (learning_rate_of hps)
              (fp16 (x_variable hps)) logits
              (all_groups (Hps.n_layer hps)) params).
Proof.
  intros Hwarm Hok.
  destruct (main_graph_run hps mpi_size mpi_rank Hwarm Hok) as (h & vs & _ & Hvs & _ & ->).
  eexists _, _. split; [|reflexivity]. by rewrite fmap_app, Hvs.
Qed.

Lemma params_of_assemble hps mpi_size mpi_rank ys cs gs gstep lr xe lg groups ps :
  params (assemble hps mpi_size mpi_rank ys cs gs gstep lr xe lg groups ps) = ps.
Proof. unfold assemble. by rewrite split_grads_filter. Qed.

Lemma search_strings_of_grads hps mpi_size mpi_rank ys cs gs gstep lr xe lg groups ps :
  1 < mpi_size →
  Forall (λ grad, search_strings_of grad = Some groups)
    (grads (assemble hps mpi_size mpi_rank ys cs gs gstep lr xe lg groups ps)).
Proof.
  intros Hsize. unfold assemble. rewrite split_grads_filter. cbn [grads].
  rewrite !(decide_True (P := 1 < mpi_size)) by done.
  unfold group_allreduce. rewrite <- list_fmap_compose.
  case_decide; rewrite ?log_all_stats_fmap; apply Forall_fmap, Forall_forall; done.
Qed.

(** X14: with at most ten layers, the search strings handed to
    [group_allreduce] are the layer names, last layer first, then [embed],
    and the name of every parameter contains exactly one of them. *)
Theorem search_strings_pick_one_group hps mpi_size mpi_rank :
  Hps.warmup_iters hps ≠ 0 → Hps.n_layer hps = 0 ∨ Hps.n_head hps ≠ 0 →
  Hps.n_layer hps ≤ 10 →
  ∃ out, main_graph hps mpi_size mpi_rank = Ok out
    ∧ (1 < mpi_size →
         Forall (λ grad, search_strings_of grad = Some (all_groups (Hps.n_layer hps)))
           (grads out))
    ∧ Forall (λ param,
          length (matching_groups (all_groups (Hps.n_layer hps)) (op_name param)) = 1)
        (params out).
Proof.
  intros Hwarm Hok Hten.
  destruct (main_graph_parts hps mpi_size mpi_rank Hwarm Hok) as (lg & ps & Hpaths & ->).
  eexists. split; [done|]. split; [apply search_strings_of_grads|].
  rewrite params_of_assemble.
  pose proof (one_group_up_to_ten_layers _ Hten) as Hone.
  rewrite <- Hpaths in Hone. by apply Forall_fmap in Hone.
Qed.

Lemma search_strings_pick_one_group_witness :
  ∃ out, main_graph Hps.default 2 0 = Ok out
    ∧ Forall (λ param, length (matching_groups (all_groups 6) (op_name param)) = 1)
        (params out).
Proof.
  assert (Hps.warmup_iters Hps.default ≠ 0) as Hwarm by (cbn; lia).
  assert (Hps.n_layer Hps.default = 0 ∨ Hps.n_head Hps.default ≠ 0) as Hok
    by (right; cbn; lia).
  assert (Hps.n_layer Hps.default ≤ 10) as Hten by (cbn; lia).
  destruct (search_strings_pick_one_group Hps.default 2 0 Hwarm Hok Hten)
    as (out & Hrun & _ & Hone).
  exists out. split; [exact Hrun|exact Hone].
Defined.

(** X15: from eleven layers on the search strings are ambiguous: the
    name of the parameter [model/layer_10/attention/q/w] contains both
    [layer_1] and [layer_10]. *)
Theorem search_strings_overlap_beyond_ten_layers hps mpi_size mpi_rank :
  Hps.warmup_iters hps ≠ 0 → Hps.n_head hps ≠ 0 → 11 ≤ Hps.n_layer hps →
  ∃ out param, main_graph hps mpi_size mpi_rank = Ok out
    ∧ param ∈ params out
    ∧ op_name param = "model/layer_10/attention/q/w"
    ∧ "layer_1"%string ∈ matching_groups (all_groups (Hps.n_layer hps)) (op_name param)
    ∧ "layer_10"%string ∈ matching_groups (all_groups (Hps.n_layer hps)) (op_name param).
Proof.
  intros Hwarm Hhead Heleven.
  destruct (main_graph_parts hps mpi_size mpi_rank Hwarm (or_intror Hhead))
    as (lg & ps & Hpaths & ->).
  assert (["model"; layer_name 10; "attention"; "q"; "w"]%string
          ∈ all_paths (Hps.n_layer hps)) as Hin.
  { unfold all_paths. do 2 apply list_elem_of_further.
    apply list_elem_of_bind. exists 10. split; [|apply elem_of_seq; lia].
    apply list_elem_of_fmap. exists ["attention"; "q"; "w"]%string. split; [done|].
    unfold block_paths. apply list_elem_of_here. }
  rewrite <- Hpaths in Hin. apply list_elem_of_fmap in Hin as (param & Hpath & Hparam).
  assert (op_name param = "model/layer_10/attention/q/w"%string) as Hname
    by (unfold op_name; by rewrite <- Hpath).
  assert (∀ l, l < Hps.n_layer hps → layer_name l ∈ all_groups (Hps.n_layer hps)) as Hgroup.
  { intros l Hl. unfold all_groups. apply elem_of_app. left.
    apply elem_of_reverse, list_elem_of_fmap. exists l. split; [done|].
    apply elem_of_seq. lia. }
  eexists _, param. split; [done|]. rewrite params_of_assemble.
  split; [done|]. split; [done|]. rewrite Hname. unfold matching_groups.
  split; apply list_elem_of_filter.
  - split; [reflexivity|]. apply (Hgroup 1). lia.
  - split; [reflexivity|]. apply (Hgroup 10). lia.
Qed.

Lemma search_strings_overlap_beyond_ten_layers_witness :
  ∃ out param, main_graph twelve_layers 2 0 = Ok out
    ∧ param ∈ params out
    ∧ op_name param = "model/layer_10/attention/q/w"
    ∧ "layer_1"%string ∈ matching_groups (all_groups 12) (op_name param)
    ∧ "layer_10"%string ∈ matching_groups (all_groups 12) (op_name param).
Proof.
  assert (Hps.warmup_iters twelve_layers ≠ 0) as Hwarm by (cbn; lia).
  assert (Hps.n_head twelve_layers ≠ 0) as Hhead by (cbn; lia).
  assert (11 ≤ Hps.n_layer twelve_layers) as Heleven by (cbn; lia).
  exact (search_strings_overlap_beyond_ten_layers twelve_layers 2 0 Hwarm Hhead Heleven).
Defined.

(** *** The learning rate *)

Lemma optimizers_of_assemble hps mpi_size mpi_rank ys cs gs gstep lr xe lg groups ps :
  let out := assemble hps mpi_size mpi_rank ys cs gs gstep lr xe lg groups ps in
  optimizers_of (train_op out)
  = [AdafactorOptimizer lr (norm_scale out) gs; AdamOptimizer lr (norm_scale out) gs].
Proof. unfold assemble. by rewrite split_grads_filter. Qed.

(** X16: both optimizers get the same learning rate, which in exact
    arithmetic is [global_step / warmup_iters * lr] up to [warmup_iters]
    steps and [lr] from there on. *)
Theorem learning_rate_warms_up hps mpi_size mpi_rank :
  Hps.warmup_iters hps ≠ 0 → Hps.n_layer hps = 0 ∨ Hps.n_head hps ≠ 0 →
  ∃ out, main_graph hps mpi_size mpi_rank = Ok out
    ∧ learning_rate_given <$> optimizers_of (train_op out)
      = [learning_rate_of hps; learning_rate_of hps]
    ∧ ∀ env (global_step : Q),
        (env global_step_variable == global_step)%Q →
        (global_step <= of_nat (Hps.warmup_iters hps) →
           scalar env (learning_rate_of hps)
           == global_step / of_nat (Hps.warmup_iters hps) * Hps.lr hps)%Q
        ∧ (of_nat (Hps.warmup_iters hps) <= global_step →
             scalar env (learning_rate_of hps) == Hps.lr hps)%Q.
Proof.
  intros Hwarm Hok.
  destruct (main_graph_parts hps mpi_size mpi_rank Hwarm Hok) as (lg & ps & _ & ->).
  eexists. split; [done|]. split; [by rewrite optimizers_of_assemble|].
  intros env step Henv. unfold learning_rate_of. cbn [scalar].
  change (env (Var ["model"; "Variable"] [] (constant_initializer 1) false))
    with (env global_step_variable).
  set (w := of_nat (Hps.warmup_iters hps)).
  assert (0 < w)%Q as Hw.
  { subst w. unfold of_nat, Qlt. cbn. lia. }
  assert (¬ (w == 0)%Q) as Hw0 by (by apply Qnot_eq_sym, Qlt_not_eq).
  assert (env global_step_variable * (1 / w) == step / w)%Q as Hratio
    by (rewrite Henv; field; done).
  split; intros Hle.
  - rewrite Q.min_l.
    + by rewrite Hratio.
    + rewrite Hratio. apply Qle_shift_div_r; [done|]. by rewrite Qmult_1_l.
  - rewrite Q.min_r.
    + by rewrite Qmult_1_l.
    + rewrite Hratio. apply Qle_shift_div_l; [done|]. by rewrite Qmult_1_l.
Qed.

Lemma learning_rate_warms_up_witness :
  ∃ out, main_graph Hps.default 1 0 = Ok out
    ∧ learning_rate_given <$> optimizers_of (train_op out)
      = [learning_rate_of Hps.default; learning_rate_of Hps.default].
Proof.
  assert (Hps.warmup_iters Hps.default ≠ 0) as Hwarm by (cbn; lia).
  assert (Hps.n_layer Hps.default = 0 ∨ Hps.n_head Hps.default ≠ 0) as Hok
    by (right; cbn; lia).
  destruct (learning_rate_warms_up Hps.default 1 0 Hwarm Hok) as (out & Hrun & Hlr & _).
  exists out. split; [exact Hrun|exact Hlr].
Defined.

(** *** Shapes *)

Section shape_logic.
Context {A B : Type}.

Lemma shapes_ret (a : A) g (P : A → Prop) : P a → creates_shapes (mret a) g [] P.
Proof. intros HP. exists a, []. rewrite app_nil_r. by destruct g. Qed.

Lemma shapes_bind (m : build A) (f : A → build B) g ss1 ss2 P Q :
  creates_shapes m g ss1 P →
  (∀ a g', P a → scope g' = scope g → creates_shapes (f a) g' ss2 Q) →
  creates_shapes (m ≫= f) g (ss1 ++ ss2) Q.
Proof.
  intros (a & vs1 & Hm & Hvs1 & HP) Hf.
  destruct (Hf a (Graph (scope g) (trainable_variables g ++ vs1)) HP eq_refl)
    as (b & vs2 & Hfa & Hvs2 & HQ).
  exists b, (vs1 ++ vs2). unfold mbind, build_bind. rewrite Hm, Hfa.
  cbn [scope trainable_variables] in *.
  by rewrite app_assoc, !fmap_app, Hvs1, Hvs2.
Qed.

Lemma shapes_variable_scope name (body : build A) g ss P :
  creates_shapes body (Graph (scope g ++ [name]) (trainable_variables g)) ss P →
  creates_shapes (variable_scope name body) g ss P.
Proof.
  intros (a & vs & Hm & Hvs & HP). exists a, vs. unfold variable_scope.
  by rewrite Hm.
Qed.
End shape_logic.

Lemma shapes_get_variable name sh init g :
  creates_shapes (get_variable name sh init) g [sh]
    (λ v, v = Var (scope g ++ [name]) sh init true).
Proof. eexists _, [_]. by repeat split. Qed.

Lemma shapes_truediv a b g :
  ¬ (b == 0)%Q → creates_shapes (truediv a b) g [] (λ q, q = (a / b)%Q).
Proof.
  intros Hb. unfold truediv. rewrite (Qeq_bool_false _ _ Hb). by apply shapes_ret.
Qed.

Lemma shapes_as {A} (m : build A) g ss ss' P :
  creates_shapes m g ss P → ss = ss' → creates_shapes m g ss' P.
Proof. by intros ? <-. Qed.

Ltac shape_bind_with lem :=
  eapply shapes_bind; [eapply lem|]; cbv beta;
  let a := fresh "a" in let g' := fresh "g" in
  let Ha := fresh "Ha" in let Hg := fresh "Hg" in
  intros a g' Ha Hg.

Lemma resolve_given_shape size (l : list nat) :
  resolve_shape size (Z.of_nat <$> l) = l.
Proof.
  unfold resolve_shape. rewrite <- list_fmap_compose.
  rewrite <- (list_fmap_id l) at 2. apply list_fmap_ext. intros _ d _. cbn.
  rewrite decide_False by lia. apply Nat2Z.id.
Qed.

Lemma conv1d_shapes x sc nf relu g b t s :
  shape x = [b; t; s] →
  creates_shapes (conv1d x sc nf relu) g [[s; nf]; [nf]] (λ y, shape y = [b; t; nf]).
Proof.
  intros Hx. eapply shapes_as.
  - unfold conv1d. apply shapes_variable_scope. cbv zeta.
    shape_bind_with shapes_get_variable. shape_bind_with shapes_get_variable.
    apply shapes_ret. unfold ndims. rewrite Hx. cbn [length].
    rewrite !decide_True by lia. cbn [shape]. cbn [Nat.sub take].
    change ((Z.of_nat <$> [b; t]) ++ [Z.of_nat nf]) with (Z.of_nat <$> [b; t; nf]).
    apply resolve_given_shape.
  - unfold last_dim. by rewrite Hx.
Qed.

Lemma layernorm_shapes x sc epsilon relu g b t s :
  shape x = [b; t; s] →
  creates_shapes (layernorm x sc epsilon relu) g [[s]; [s]] (λ y, shape y = [b; t; s]).
Proof.
  intros Hx. eapply shapes_as.
  - unfold layernorm. apply shapes_variable_scope.
    shape_bind_with shapes_get_variable. shape_bind_with shapes_get_variable.
    by apply shapes_ret.
  - unfold last_dim. by rewrite Hx.
Qed.

Lemma add_same_shape a x b t s :
  shape a = [b; t; s] → shape x = [b; t; s] → shape (Add a x) = [b; t; s].
Proof.
  intros Ha Hx. cbn [shape]. rewrite Ha, Hx. unfold broadcast_shape.
  cbn [length Nat.max Nat.sub replicate app zip_with]. by repeat case_decide.
Qed.

Lemma last_dim_of x b t s : shape x = [b; t; s] → last_dim x = s.
Proof. intros Hx. unfold last_dim. by rewrite Hx. Qed.

Lemma attention_shapes x sc n_head n_timesteps g b t s :
  n_head ≠ 0 → shape x = [b; t; s] →
  creates_shapes (attention x sc n_head n_timesteps) g
    [[s; s]; [s]; [s; s]; [s]; [s; s]; [s]; [s; s]; [s]] (λ y, shape y = [b; t; s]).
Proof.
  intros Hhead Hx. unfold attention. rewrite (last_dim_of _ _ _ _ Hx).
  apply shapes_variable_scope.
  apply (shapes_bind _ _ _ [[s; s]; [s]] _ _ _ (conv1d_shapes _ _ _ _ _ _ _ _ Hx)).
  intros q g1 Hq _.
  apply (shapes_bind _ _ _ [[s; s]; [s]] _ _ _ (conv1d_shapes _ _ _ _ _ _ _ _ Hx)).
  intros k g2 Hk _.
  apply (shapes_bind _ _ _ [[s; s]; [s]] _ _ _ (conv1d_shapes _ _ _ _ _ _ _ _ Hx)).
  intros v g3 Hv _. cbv zeta.
  apply (shapes_bind _ _ _ [] _ _ _
           (shapes_truediv _ _ _ (of_nat_nonzero _ Hhead))).
  intros scale g4 -> _.
  apply (conv1d_shapes _ _ _ _ _ b t s). cbn [shape]. exact Hv.
Qed.

Lemma mlp_shapes x sc g b t s :
  shape x = [b; t; s] →
  creates_shapes (mlp x sc) g [[s; s * 4]; [s * 4]; [s * 4; s]; [s]]
    (λ y, shape y = [b; t; s]).
Proof.
  intros Hx. unfold mlp. cbv zeta. rewrite (last_dim_of _ _ _ _ Hx).
  apply shapes_variable_scope.
  apply (shapes_bind _ _ _ [[s; s * 4]; [s * 4]] _ _ _
           (conv1d_shapes _ _ _ _ _ _ _ _ Hx)).
  intros hid g1 Hhid _.
  apply (shapes_bind _ _ _ [[s * 4; s]; [s]] _ _ _
           (conv1d_shapes _ _ _ _ _ _ _ _ Hhid)).
  intros res g2 Hres _.
  apply shapes_ret. by apply add_same_shape.
Qed.

Lemma transformer_block_shapes x sc n_head n_timesteps g b t s :
  n_head ≠ 0 → shape x = [b; t; s] →
  creates_shapes (transformer_block x sc n_head n_timesteps) g (block_shapes s)
    (λ y, shape y = [b; t; s]).
Proof.
  intros Hhead Hx. eapply shapes_as.
  - unfold transformer_block. apply shapes_variable_scope.
    eapply shapes_bind; [by apply attention_shapes|]. cbv beta. intros a g1 Ha _.
    eapply shapes_bind; [apply layernorm_shapes; by apply add_same_shape|].
    cbv beta. intros a' g2 Ha' _.
    eapply shapes_bind; [by apply mlp_shapes|]. cbv beta. intros m g3 Hm _.
    apply layernorm_shapes. by apply add_same_shape.
  - reflexivity.
Qed.

Lemma layers_shapes hps h grad_groups range g b t s :
  range = [] ∨ Hps.n_head hps ≠ 0 → shape h = [b; t; s] →
  creates_shapes (layers hps h grad_groups range) g
    (_ ← range; block_shapes s) (λ r, shape r.1 = [b; t; s]).
Proof.
  intros Hok. revert h grad_groups g.
  induction range as [|l range IH]; intros h grad_groups g Hh.
  - by apply shapes_ret.
  - destruct Hok as [|Hhead]; [done|]. cbn [layers]. cbv zeta.
    change (_ ← l :: range; block_shapes s)
      with (block_shapes s ++ (_ ← range; block_shapes s)).
    eapply shapes_bind; [by apply transformer_block_shapes|].
    cbv beta. intros h1 g1 Hh1 _. apply IH; [by right|done].
Qed.

Lemma bind_length {A B} (f : A → list B) (l : list A) n :
  (∀ a, length (f a) = n) → length (l ≫= f) = length l * n.
Proof.
  intros Hf. induction l as [|a l IH]; [done|].
  change ((a :: l) ≫= f) with (f a ++ (l ≫= f)).
  rewrite length_app, Hf, IH. cbn [length]. lia.
Qed.

Lemma logits_shape h xe b t s v :
  0 < s → shape h = [b; t; s] → shape xe = [v; s] →
  shape (MatMul (Reshape h [(-1)%Z; Z.of_nat s]) xe true) = [b * t; v].
Proof.
  intros Hs Hh Hxe. cbn [shape]. rewrite Hh, Hxe. unfold resolve_shape.
  cbn [fmap list_fmap foldr take app]. rewrite decide_True by lia.
  rewrite (filter_cons_False (λ d, (0 ≤ d)%Z)) by lia.
  rewrite (filter_cons_True (λ d, (0 ≤ d)%Z)) by lia.
  rewrite filter_nil. cbn [fmap list_fmap foldr take app]. f_equal.
  rewrite Nat2Z.id, !Nat.mul_1_r, Nat.mul_assoc. apply Nat.div_mul. lia.
Qed.

(** X17: the parameters are the two embeddings, of shapes
    [n_vocab, n_state] and [1, n_timesteps, n_state], and sixteen variables
    a layer of the shapes [block_shapes]; the logits have the shape
    [n_batch * n_timesteps, n_vocab]. *)
Theorem parameters_and_logits_shapes hps mpi_size mpi_rank :
  Hps.warmup_iters hps ≠ 0 → Hps.n_layer hps = 0 ∨ Hps.n_head hps ≠ 0 →
  ∃ out,
    main_graph hps mpi_size mpi_rank = Ok out
    ∧ shape <$> params out
      = [Hps.n_vocab hps; Hps.n_state hps]
        :: [1; Hps.n_timesteps hps; Hps.n_state hps]
        :: (_ ← seq 0 (Hps.n_layer hps); block_shapes (Hps.n_state hps))
    ∧ length (params out) = 2 + Hps.n_layer hps * 16
    ∧ (0 < Hps.n_batch hps → 0 < Hps.n_state hps →
       shape (logits out)
       = [Hps.n_batch hps * Hps.n_timesteps hps; Hps.n_vocab hps]).
Proof.
  intros Hwarm Hok.
  destruct (main_graph_run hps mpi_size mpi_rank Hwarm Hok)
    as (h & vs & Hlayers & _ & _ & Hrun).
  assert (shape (embedded_input hps)
          = [Hps.n_batch hps; Hps.n_timesteps hps; Hps.n_state hps]) as Hin.
  { unfold embedded_input, fp16, x_variable, pos_variable, X_placeholder.
    cbn [shape drop app]. unfold broadcast_shape.
    cbn [length Nat.max Nat.sub replicate app zip_with].
    repeat case_decide; congruence. }
  assert (seq 0 (Hps.n_layer hps) = [] ∨ Hps.n_head hps ≠ 0) as Hrange.
  { destruct Hok as [->|]; [by left|by right]. }
  destruct (layers_shapes hps (embedded_input hps) ["embed"] (seq 0 (Hps.n_layer hps))
              (Graph ["model"] [x_variable hps; pos_variable hps]) _ _ _ Hrange Hin)
    as (r & vs' & Hlayers' & Hvs' & Hr).
  cbn [scope trainable_variables] in Hlayers'. rewrite Hlayers in Hlayers'.
  injection Hlayers' as <- <-.
  cbn [fst] in Hr.
  eexists. split; [exact Hrun|]. rewrite params_of_assemble.
  assert (shape <$> [x_variable hps; pos_variable hps] ++ vs
          = [Hps.n_vocab hps; Hps.n_state hps]
            :: [1; Hps.n_timesteps hps; Hps.n_state hps]
            :: (_ ← seq 0 (Hps.n_layer hps); block_shapes (Hps.n_state hps))) as Hshapes.
  { by rewrite fmap_app, Hvs'. }
  split; [exact Hshapes|]. split.
  - rewrite <- (length_fmap shape), Hshapes. cbn [length].
    rewrite (bind_length _ _ 16) by done. by rewrite length_seq.
  - intros Hbatch Hstate. unfold assemble. rewrite split_grads_filter. cbn [logits].
    by rewrite (logits_shape _ _ _ _ _ (Hps.n_vocab hps) Hstate Hr).
Qed.

Lemma parameters_and_logits_shapes_witness :
  ∃ out, main_graph Hps.default 1 0 = Ok out
    ∧ length (params out) = 98
    ∧ shape (logits out) = [32 * 320; 256].
Proof.
  assert (Hps.warmup_iters Hps.default ≠ 0) as Hwarm by (cbn; lia).
  assert (Hps.n_layer Hps.default = 0 ∨ Hps.n_head Hps.default ≠ 0) as Hok
    by (right; cbn; lia).
  destruct (parameters_and_logits_shapes Hps.default 1 0 Hwarm Hok)
    as (out & Hrun & _ & Hlen & Hlogits).
  exists out. split; [exact Hrun|]. split; [exact Hlen|].
  apply Hlogits; cbn; lia.
Defined.
